(** * CSPScheduler: a shallow embedding of [src/CSPScheduler.py]

    The Python class [Scheduler] holds a problem instance (subjects, a
    teacher -> subjects dictionary, time slots) and a schedule dictionary
    (subject -> list of slots) which its methods mutate.  The methods are
    embedded in a state-and-exception monad over a record with the four
    attributes of the object.

    - Python dictionaries keep insertion order and the code iterates over
      them, so a [dict] is an association list in insertion order.
    - A time slot is a [Tuple[str, str]]; a subject or a teacher a [str].
    - Every slot list stored in the schedule is created by the method that
      stores it ([[chosen_slot]], [[]], [[time_slot]]), so no two entries of
      the schedule share a list object and a slot list can be kept as a value
      inside the dictionary.
    - The iteration order of a Python [set] is not fixed by the language;
      [finalize_schedule] takes it as a parameter. *)

From Stdlib Require Import String Bool Arith Lia List Permutation.
Import ListNotations.
Open Scope string_scope.
Open Scope list_scope.

(** ** Values compared with [==] *)

Class PyEq (A : Type) := {
  py_eqb : A -> A -> bool;
  py_eqb_spec : forall a b, reflect (a = b) (py_eqb a b)
}.

#[export] Instance PyEq_string : PyEq string :=
  {| py_eqb := String.eqb; py_eqb_spec := String.eqb_spec |}.

Definition pair_eqb {A B} `{PyEq A} `{PyEq B} (p q : A * B) : bool :=
  py_eqb (fst p) (fst q) && py_eqb (snd p) (snd q).

#[export, refine] Instance PyEq_pair {A B} `{PyEq A} `{PyEq B} : PyEq (A * B) :=
  {| py_eqb := pair_eqb |}.
Proof.
  intros [a b] [c d]; unfold pair_eqb; simpl.
  destruct (py_eqb_spec a c) as [->|Hac]; simpl.
  - destruct (py_eqb_spec b d) as [->|Hbd]; constructor; congruence.
  - constructor; congruence.
Defined.

Definition Subject := string.
Definition Teacher := string.
Definition TimeSlot := (string * string)%type.

(** ** Python lists *)

Section PyList.
Context {A : Type} `{PyEq A}.

(** [x in l] *)
Fixpoint list_mem (x : A) (l : list A) : bool :=
  match l with
  | [] => false
  | y :: r => py_eqb y x || list_mem x r
  end.

(** [l.remove(x)]: drops the first occurrence; [None] stands for the
    [ValueError] raised when there is none. *)
Fixpoint list_remove (x : A) (l : list A) : option (list A) :=
  match l with
  | [] => None
  | y :: r =>
      if py_eqb y x then Some r
      else match list_remove x r with
           | Some r' => Some (y :: r')
           | None => None
           end
  end.

(** [set(l)], kept as a duplicate-free list. *)
Fixpoint set_of_list (l : list A) : list A :=
  match l with
  | [] => []
  | x :: r => if list_mem x r then set_of_list r else x :: set_of_list r
  end.

(** [s - t] on sets. *)
Definition set_difference (s t : list A) : list A :=
  filter (fun x => negb (list_mem x t)) s.

(** [s.remove(x)] on a set that contains [x]. *)
Definition set_remove (x : A) (s : list A) : list A :=
  filter (fun y => negb (py_eqb y x)) s.
End PyList.

(** ** Python dictionaries, in insertion order *)

Section PyDict.
Context {K V : Type} `{PyEq K}.

Definition dict := list (K * V).

(** [d.get(k)] *)
Fixpoint dict_get (k : K) (d : dict) : option V :=
  match d with
  | [] => None
  | (k', v) :: r => if py_eqb k' k then Some v else dict_get k r
  end.

(** [d[k] = v]: an existing key keeps its position, a new one goes last. *)
Fixpoint dict_set (k : K) (v : V) (d : dict) : dict :=
  match d with
  | [] => [(k, v)]
  | (k', v') :: r =>
      if py_eqb k' k then (k', v) :: r else (k', v') :: dict_set k v r
  end.

Definition dict_keys (d : dict) : list K := map fst d.
Definition dict_values (d : dict) : list V := map snd d.
End PyDict.

Arguments dict : clear implicits.

(** [d.get(k, [])] *)
Definition dict_get_list {K V} `{PyEq K} (k : K) (d : dict K (list V)) : list V :=
  match dict_get k d with
  | Some l => l
  | None => []
  end.

(** ** The object and the monad of its methods *)

Record Scheduler := mkScheduler {
  subjects : list Subject;
  teachers : dict Teacher (list Subject);
  time_slots : list TimeSlot;
  schedule : dict Subject (list TimeSlot)
}.

(** [Scheduler.__init__] *)
Definition Scheduler_init (subjects : list Subject)
    (teachers : dict Teacher (list Subject))
    (time_slots : list TimeSlot) : Scheduler :=
  mkScheduler subjects teachers time_slots [].

Inductive exn := KeyError | ValueError.

Inductive result (A : Type) :=
| Ok (a : A)
| Raise (e : exn).
Arguments Ok {A} a.
Arguments Raise {A} e.

Definition M (A : Type) := Scheduler -> result (A * Scheduler).

Definition ret {A} (a : A) : M A := fun st => Ok (a, st).

Definition bind {A B} (c : M A) (k : A -> M B) : M B :=
  fun st =>
    match c st with
    | Ok (a, st') => k a st'
    | Raise e => Raise e
    end.

Definition raise {A} (e : exn) : M A := fun _ => Raise e.

(** Reading an attribute of [self]. *)
Definition gets {A} (f : Scheduler -> A) : M A := fun st => Ok (f st, st).

(** The object with another schedule; the other attributes are never
    assigned after construction. *)
Definition with_schedule (st : Scheduler) (d : dict Subject (list TimeSlot)) : Scheduler :=
  mkScheduler (subjects st) (teachers st) (time_slots st) d.

(** Replacing the contents of [self.schedule]. *)
Definition put_schedule (d : dict Subject (list TimeSlot)) : M unit :=
  fun st => Ok (tt, with_schedule st d).

Declare Scope sched_scope.
Delimit Scope sched_scope with sched.
Notation "x <- c ;; k" := (bind c (fun x => k))
  (at level 61, c at next level, right associativity) : sched_scope.
Notation "c ;; k" := (bind c (fun _ => k))
  (at level 61, right associativity) : sched_scope.
Open Scope sched_scope.

(** A [for] loop whose body updates the local variables [acc]. *)
Fixpoint foldM {A B} (body : B -> A -> M B) (l : list A) (acc : B) : M B :=
  match l with
  | [] => ret acc
  | x :: r => acc' <- body acc x ;; foldM body r acc'
  end.

(** A [for] loop without local variables. *)
Fixpoint for_each {A} (l : list A) (body : A -> M unit) : M unit :=
  match l with
  | [] => ret tt
  | x :: r => body x ;; for_each r body
  end.

(** [self.schedule[subject] = slots] *)
Definition schedule_setitem (subject : Subject) (slots : list TimeSlot) : M unit :=
  sched <- gets schedule ;;
  put_schedule (dict_set subject slots sched).

(** [self.schedule[subject]], which raises [KeyError] on a missing key. *)
Definition schedule_getitem (subject : Subject) : M (list TimeSlot) :=
  sched <- gets schedule ;;
  match dict_get subject sched with
  | Some slots => ret slots
  | None => raise KeyError
  end.

(** [self.schedule[subject].remove(time_slot)] *)
Definition schedule_remove (subject : Subject) (time_slot : TimeSlot) : M unit :=
  slots <- schedule_getitem subject ;;
  match list_remove time_slot slots with
  | Some slots' => schedule_setitem subject slots'
  | None => raise ValueError
  end.

(** [self.schedule[subject].append(time_slot)] *)
Definition schedule_append (subject : Subject) (time_slot : TimeSlot) : M unit :=
  slots <- schedule_getitem subject ;;
  schedule_setitem subject (slots ++ [time_slot]).

(** ** The methods *)

(** [initialize_schedule]: [available_slots] is the local copy of the slots,
    [pop(0)] takes its head. *)
Definition initialize_schedule : M unit :=
  available_slots <- gets time_slots ;;
  subjects <- gets subjects ;;
  foldM (fun available_slots subject =>
           match available_slots with
           | chosen_slot :: rest =>
               schedule_setitem subject [chosen_slot] ;; ret rest
           | [] =>
               schedule_setitem subject [] ;; ret []
           end) subjects available_slots ;;
  ret tt.

Definition Conflicts := dict Teacher (list (Subject * TimeSlot)).

(** [teacher_conflicts.setdefault(teacher, []).append(record)], and
    [teacher_conflicts[teacher].append(record)] once the key is there. *)
Definition conflicts_append (teacher : Teacher) (record : Subject * TimeSlot)
    (teacher_conflicts : Conflicts) : Conflicts :=
  dict_set teacher (dict_get_list teacher teacher_conflicts ++ [record])
    teacher_conflicts.

(** The body of the innermost loop of [find_teacher_conflicts]. *)
Definition conflict_step (teacher : Teacher) (subject : Subject)
    (acc : Conflicts * dict TimeSlot Subject) (time_slot : TimeSlot)
  : Conflicts * dict TimeSlot Subject :=
  let '(teacher_conflicts, occupied_slots) := acc in
  match dict_get time_slot occupied_slots with
  | Some first =>
      (conflicts_append teacher (first, time_slot)
         (conflicts_append teacher (subject, time_slot) teacher_conflicts),
       occupied_slots)
  | None => (teacher_conflicts, dict_set time_slot subject occupied_slots)
  end.

Definition find_teacher_conflicts : M Conflicts :=
  teachers <- gets teachers ;;
  foldM (fun teacher_conflicts '(teacher, subjects) =>
           acc <- foldM (fun acc subject =>
                           sched <- gets schedule ;;
                           foldM (fun acc time_slot =>
                                    ret (conflict_step teacher subject acc time_slot))
                                 (dict_get_list subject sched) acc)
                        subjects (teacher_conflicts, []) ;;
           ret (fst acc))
        teachers [].

(** [{slot for slots in self.schedule.values() for slot in slots}]; only
    membership in it is ever asked. *)
Definition occupied (sched : dict Subject (list TimeSlot)) : list TimeSlot :=
  concat (dict_values sched).

Definition find_alternative_slot (conflicting_slot : TimeSlot) : M (option TimeSlot) :=
  sched <- gets schedule ;;
  let occupied_slots := occupied sched in
  time_slots <- gets time_slots ;;
  ret (find (fun slot => negb (list_mem slot occupied_slots)) time_slots).

(** The swap loop of [resolve_teacher_conflicts], over the items of the
    schedule; it stops at the first subject it changes ([break]). *)
Fixpoint swap_loop (subject : Subject) (time_slot : TimeSlot)
    (items : list (Subject * list TimeSlot)) : M unit :=
  match items with
  | [] => ret tt
  | (swap_subject, swap_slots) :: rest =>
      if negb (py_eqb swap_subject subject) && list_mem time_slot swap_slots
      then
        schedule_remove swap_subject time_slot ;;
        alternative_slot <- find_alternative_slot time_slot ;;
        schedule_append swap_subject
          (match alternative_slot with
           | Some slot => slot
           | None => time_slot
           end)
      else swap_loop subject time_slot rest
  end.

(** A slot is a pair of strings, hence a true value whenever it is not
    [None]: [if alternative_slot] and [... or time_slot] test for [None]. *)
Definition resolve_conflict (record : Subject * TimeSlot) : M unit :=
  let '(subject, time_slot) := record in
  alternative_slot <- find_alternative_slot time_slot ;;
  match alternative_slot with
  | Some slot =>
      schedule_remove subject time_slot ;;
      schedule_append subject slot
  | None =>
      items <- gets schedule ;;
      swap_loop subject time_slot items
  end.

Definition resolve_teacher_conflicts : M unit :=
  conflicts <- find_teacher_conflicts ;;
  for_each conflicts (fun '(teacher, sub_time_pairs) =>
    for_each sub_time_pairs resolve_conflict).

(** [not self.schedule.get(subject)] *)
Definition unassigned (sched : dict Subject (list TimeSlot)) (subject : Subject) : bool :=
  match dict_get subject sched with
  | Some (_ :: _) => false
  | _ => true
  end.

(** The first element a [for] loop over the set [s] meets.  [order] stands
    for the hash order of the interpreter: it may pick any position. *)
Definition set_first (order : list TimeSlot -> nat) (s : list TimeSlot) : option TimeSlot :=
  nth_error s (order s mod length s).

Definition finalize_schedule (order : list TimeSlot -> nat) : M unit :=
  subjects <- gets subjects ;;
  sched <- gets schedule ;;
  time_slots <- gets time_slots ;;
  let unassigned_subjects := filter (unassigned sched) subjects in
  let available_slots := set_difference (set_of_list time_slots) (occupied sched) in
  foldM (fun available_slots subject =>
           match set_first order available_slots with
           | Some time_slot =>
               schedule_setitem subject [time_slot] ;;
               ret (set_remove time_slot available_slots)
           | None => ret available_slots
           end) unassigned_subjects available_slots ;;
  ret tt.

(** The three phases in the order the driver runs them. *)
Definition pipeline (order : list TimeSlot -> nat) : M unit :=
  initialize_schedule ;;
  resolve_teacher_conflicts ;;
  finalize_schedule order.

(** ** The sample run of the driver *)

Definition sample : Scheduler :=
  Scheduler_init ["Math"; "Physics"; "Chemistry"; "Biology"]
    [("Alice", ["Math"; "Physics"]); ("Bob", ["Chemistry"]); ("Charlie", ["Biology"])]
    [("Monday", "9AM"); ("Monday", "10AM"); ("Monday", "11AM")].

(** ** The loops of [find_teacher_conflicts] as folds *)

Definition scan_slots (teacher : Teacher) (subject : Subject)
    (slots : list TimeSlot) (acc : Conflicts * dict TimeSlot Subject) :=
  fold_left (conflict_step teacher subject) slots acc.

Definition scan_subjects (sched : dict Subject (list TimeSlot)) (teacher : Teacher)
    (subjects : list Subject) (acc : Conflicts * dict TimeSlot Subject) :=
  fold_left (fun acc subject =>
               scan_slots teacher subject (dict_get_list subject sched) acc)
            subjects acc.

Definition conflicts_of (teachers : dict Teacher (list Subject))
    (sched : dict Subject (list TimeSlot)) : Conflicts :=
  fold_left (fun teacher_conflicts '(teacher, subjects) =>
               fst (scan_subjects sched teacher subjects (teacher_conflicts, [])))
            teachers [].

(** [find_teacher_conflicts] called [n] times in a row, results dropped. *)
Fixpoint report_n (n : nat) : M unit :=
  match n with
  | O => ret tt
  | S n' => find_teacher_conflicts ;; report_n n'
  end.

(** ** Vocabulary of the statements *)

(** Some entry of the schedule lists the slot. *)
Definition slot_occupied (sched : dict Subject (list TimeSlot)) (slot : TimeSlot) : Prop :=
  exists subject slots, In (subject, slots) sched /\ In slot slots.

(** The subject is assigned the slot. *)
Definition holds (sched : dict Subject (list TimeSlot)) (subject : Subject)
    (slot : TimeSlot) : Prop :=
  In slot (dict_get_list subject sched).

(** The schedule gives every subject at most one slot. *)
Definition at_most_one_slot (sched : dict Subject (list TimeSlot)) : Prop :=
  Forall (fun entry => length (snd entry) <= 1) sched.

(** Number of subjects with a slot. *)
Definition scheduled_count (sched : dict Subject (list TimeSlot)) : nat :=
  length (filter (fun entry => match snd entry with [] => false | _ => true end) sched).

(** The loop of [initialize_schedule] on the schedule alone. *)
Fixpoint initialize_loop (subjects : list Subject) (available_slots : list TimeSlot)
    (sched : dict Subject (list TimeSlot)) : dict Subject (list TimeSlot) :=
  match subjects with
  | [] => sched
  | subject :: others =>
      match available_slots with
      | chosen_slot :: rest =>
          initialize_loop others rest (dict_set subject [chosen_slot] sched)
      | [] => initialize_loop others [] (dict_set subject [] sched)
      end
  end.

(** The slot the swap appends, [find_alternative_slot(time_slot) or time_slot]:
    a free slot if there is one, else the slot itself. *)
Definition swap_target (time_slot : TimeSlot) (st : Scheduler) : TimeSlot :=
  match find (fun slot => negb (list_mem slot (occupied (schedule st)))) (time_slots st) with
  | Some slot => slot
  | None => time_slot
  end.

(** The loop of [finalize_schedule] on the schedule alone. *)
Fixpoint finalize_loop (order : list TimeSlot -> nat)
    (unassigned_subjects : list Subject) (available_slots : list TimeSlot)
    (sched : dict Subject (list TimeSlot)) : dict Subject (list TimeSlot) :=
  match unassigned_subjects with
  | [] => sched
  | subject :: others =>
      match set_first order available_slots with
      | Some time_slot =>
          finalize_loop order others (set_remove time_slot available_slots)
            (dict_set subject [time_slot] sched)
      | None => finalize_loop order others available_slots sched
      end
  end.

(** The local set [available_slots] of [finalize_schedule] after the loop
    has gone through the given subjects. *)
Fixpoint finalize_pool (order : list TimeSlot -> nat)
    (unassigned_subjects : list Subject) (available_slots : list TimeSlot)
  : list TimeSlot :=
  match unassigned_subjects with
  | [] => available_slots
  | subject :: others =>
      match set_first order available_slots with
      | Some time_slot =>
          finalize_pool order others (set_remove time_slot available_slots)
      | None => finalize_pool order others available_slots
      end
  end.

(** The two locals of [finalize_schedule] when its loop starts. *)
Definition unassigned_subjects (st : Scheduler) : list Subject :=
  filter (unassigned (schedule st)) (subjects st).

Definition free_pool (st : Scheduler) : list TimeSlot :=
  set_difference (set_of_list (time_slots st)) (occupied (schedule st)).

(** ** The report of one teacher *)

(** The (subject, slot) pairs in the order the two inner loops of
    [find_teacher_conflicts] meet them. *)
Definition visits (sched : dict Subject (list TimeSlot)) (subjects : list Subject)
  : list (Subject * TimeSlot) :=
  flat_map (fun subject => map (pair subject) (dict_get_list subject sched)) subjects.

(** The records the visits add, from the local dictionary [occupied_slots]. *)
Fixpoint teacher_records (occupied_slots : dict TimeSlot Subject)
    (vs : list (Subject * TimeSlot)) : list (Subject * TimeSlot) :=
  match vs with
  | [] => []
  | (subject, time_slot) :: rest =>
      match dict_get time_slot occupied_slots with
      | Some first =>
          (subject, time_slot) :: (first, time_slot)
            :: teacher_records occupied_slots rest
      | None => teacher_records (dict_set time_slot subject occupied_slots) rest
      end
  end.

(** [occupied_slots] after the visits. *)
Fixpoint claims_after (occupied_slots : dict TimeSlot Subject)
    (vs : list (Subject * TimeSlot)) : dict TimeSlot Subject :=
  match vs with
  | [] => occupied_slots
  | (subject, time_slot) :: rest =>
      match dict_get time_slot occupied_slots with
      | Some _ => claims_after occupied_slots rest
      | None => claims_after (dict_set time_slot subject occupied_slots) rest
      end
  end.

(** Appending records to the entry of a teacher, one by one. *)
Definition record_all (teacher : Teacher) (records : list (Subject * TimeSlot))
    (teacher_conflicts : Conflicts) : Conflicts :=
  fold_left (fun tc record => conflicts_append teacher record tc)
            records teacher_conflicts.

(** The outer loop, from a given [teacher_conflicts]. *)
Definition report_from (sched : dict Subject (list TimeSlot))
    (teachers : dict Teacher (list Subject)) (teacher_conflicts : Conflicts) : Conflicts :=
  fold_left (fun tc '(teacher, subjects) =>
               record_all teacher (teacher_records [] (visits sched subjects)) tc)
            teachers teacher_conflicts.

(** The entry of a teacher after the outer loop: what it was, then the
    records of every entry of [teachers] under that name. *)
Fixpoint records_under (sched : dict Subject (list TimeSlot)) (teacher : Teacher)
    (tchs : dict Teacher (list Subject)) : list (Subject * TimeSlot) :=
  match tchs with
  | [] => []
  | (teacher', subs) :: rest =>
      (if String.eqb teacher' teacher
       then teacher_records [] (visits sched subs) else [])
      ++ records_under sched teacher rest
  end.

(** The slots a teacher's subject list leads to, with repetitions. *)
Definition teacher_slots (sched : dict Subject (list TimeSlot)) (subjects : list Subject)
  : list TimeSlot :=
  flat_map (fun subject => dict_get_list subject sched) subjects.

Definition slot_eq_dec (a b : TimeSlot) : {a = b} + {a <> b}.
Proof. decide equality; apply string_dec. Defined.

(** How often a teacher's subject list leads to the slot. *)
Definition slot_count (sched : dict Subject (list TimeSlot)) (subjects : list Subject)
    (slot : TimeSlot) : nat :=
  count_occ slot_eq_dec (teacher_slots sched subjects) slot.

(** Same keys in the same order, each list a rearrangement of the old one. *)
Definition same_slots (sched sched' : dict Subject (list TimeSlot)) : Prop :=
  Forall2 (fun entry entry' =>
             fst entry = fst entry' /\ Permutation (snd entry) (snd entry'))
          sched sched'.

(** Every time slot is in some subject's list. *)
Definition saturated (st : Scheduler) : Prop :=
  forall slot, In slot (time_slots st) -> slot_occupied (schedule st) slot.

(** The second object is the first with slot lists rearranged, and the very
    same when no list has two slots. *)
Definition rearranged (st st' : Scheduler) : Prop :=
  subjects st' = subjects st /\
  teachers st' = teachers st /\
  time_slots st' = time_slots st /\
  same_slots (schedule st) (schedule st') /\
  (at_most_one_slot (schedule st) -> schedule st' = schedule st).

(** No slot is in the lists of two different subjects. *)
Definition exclusive (sched : dict Subject (list TimeSlot)) : Prop :=
  forall s1 s2 slot, holds sched s1 slot -> holds sched s2 slot -> s1 = s2.

(** Every slot in the schedule is one of the object's time slots. *)
Definition within (st : Scheduler) : Prop :=
  forall slot, slot_occupied (schedule st) slot -> In slot (time_slots st).

(** Same keys in the same order, each list as long as the old one. *)
Definition same_shape (sched sched' : dict Subject (list TimeSlot)) : Prop :=
  Forall2 (fun entry entry' =>
             fst entry = fst entry' /\ length (snd entry) = length (snd entry'))
          sched sched'.

(** The entries [initialize_schedule] makes for subjects all different:
    subject by subject, the next slot while there is one, then nothing. *)
Fixpoint initial_entries (subjects : list Subject) (available_slots : list TimeSlot)
  : dict Subject (list TimeSlot) :=
  match subjects with
  | [] => []
  | subject :: others =>
      match available_slots with
      | chosen_slot :: rest => (subject, [chosen_slot]) :: initial_entries others rest
      | [] => (subject, []) :: initial_entries others []
      end
  end.

(** ** Instances used below *)

Definition mon9 : TimeSlot := ("Monday", "9AM").
Definition mon10 : TimeSlot := ("Monday", "10AM").
Definition mon11 : TimeSlot := ("Monday", "11AM").
Definition mon12 : TimeSlot := ("Monday", "12PM").

(** One subject, listed twice by its teacher. *)
Definition listed_twice : Scheduler :=
  Scheduler_init ["A"] [("T", ["A"; "A"])] [mon9; mon10].

(** The same subject twice in the subjects list. *)
Definition subject_twice : Scheduler :=
  Scheduler_init ["A"; "A"] [("T", ["A"])] [mon9; mon10].

(** Three subjects of one teacher, and the same slot three times. *)
Definition three_share : Scheduler :=
  Scheduler_init ["C"; "A"; "B"] [("T", ["C"; "A"; "B"])] [mon9; mon9; mon9].

(** The same with room to relocate all three. *)
Definition three_share_room : Scheduler :=
  Scheduler_init ["A"; "B"; "C"] [("T", ["A"; "B"; "C"])]
    [mon9; mon9; mon9; mon10; mon11; mon12].

(** Two subjects, one teacher, one slot. *)
Definition one_slot : Scheduler :=
  Scheduler_init ["A"; "B"] [("T", ["A"; "B"])] [mon9].

(** Two subjects of one teacher on one slot. *)
Definition two_share : Scheduler :=
  mkScheduler ["A"; "B"] [("T", ["A"; "B"])] [mon9; mon10; mon11]
    [("A", [mon9]); ("B", [mon9])].

(** Two subjects of one teacher on one slot, and two slots left. *)
Definition room_for_two : Scheduler :=
  mkScheduler ["A"; "B"; "C"] [("T", ["A"; "B"]); ("U", ["C"; "A"])]
    [mon9; mon10; mon11; mon12]
    [("A", [mon9]); ("B", [mon9]); ("C", [mon10])].

(** A subject left without a slot while one is free. *)
Definition late_subject : Scheduler :=
  mkScheduler ["A"; "B"] [("T", ["A"; "B"])] [mon9; mon10]
    [("A", [mon9]); ("B", [])].


(** A subject twice in the subjects list, nothing scheduled yet. *)
Definition twice_unscheduled : Scheduler :=
  mkScheduler ["A"; "A"; "B"] [] [mon9; mon10] [].

(** Two subjects of one teacher, who lists the second twice; they start on
    one slot and two slots are left. *)
Definition listed_again : Scheduler :=
  Scheduler_init ["A"; "B"] [("T", ["A"; "B"; "B"])] [mon9; mon9; mon10; mon11].

(** Two subjects of one teacher on the only slot there is. *)
Definition no_room : Scheduler :=
  mkScheduler ["A"; "B"] [("T", ["A"; "B"])] [mon9; mon9]
    [("A", [mon9]); ("B", [mon9])].

(** Two subjects of one teacher and a slot list that repeats a slot. *)
Definition repeated_slot : Scheduler :=
  Scheduler_init ["A"; "B"] [("T", ["A"; "B"])] [mon9; mon9; mon10; mon11].

(** * Properties *)

Example sample_run :
  pipeline (fun _ => 0) sample =
  Ok (tt, mkScheduler (subjects sample) (teachers sample) (time_slots sample)
            [("Math", [("Monday", "9AM")]); ("Physics", [("Monday", "10AM")]);
             ("Chemistry", [("Monday", "11AM")]); ("Biology", [])]).
Proof. reflexivity. Qed.

(** With one slot for two subjects of a teacher, the second stays
    unscheduled and nothing conflicts. *)
Example one_slot_run :
  pipeline (fun _ => 0) one_slot =
  Ok (tt, mkScheduler (subjects one_slot) (teachers one_slot) (time_slots one_slot)
            [("A", [mon9]); ("B", [])]).
Proof. reflexivity. Qed.

(** ** Lists and dictionaries: basic facts *)

Section PyListFacts.
Context {A : Type} `{PyEq A}.

Lemma py_eqb_refl (x : A) : py_eqb x x = true.
Proof. destruct (py_eqb_spec x x); congruence. Qed.

Lemma py_eqb_neq (x y : A) : x <> y -> py_eqb x y = false.
Proof. destruct (py_eqb_spec x y); congruence. Qed.

Lemma list_mem_In (x : A) l : list_mem x l = true <-> In x l.
Proof.
  induction l as [|y r IH]; simpl.
  - split; [discriminate | tauto].
  - destruct (py_eqb_spec y x) as [->|Hne]; simpl.
    + tauto.
    + rewrite IH. split; [tauto | intros [E|I]; congruence].
Qed.

Lemma list_mem_false (x : A) l : list_mem x l = false <-> ~ In x l.
Proof.
  rewrite <- list_mem_In. destruct (list_mem x l); split; congruence.
Qed.

Lemma list_mem_app (x : A) l1 l2 :
  list_mem x (l1 ++ l2) = list_mem x l1 || list_mem x l2.
Proof.
  induction l1 as [|y r IH]; simpl; [reflexivity|].
  now rewrite IH, orb_assoc.
Qed.

(** [l.remove(x)] succeeds exactly on the lists that contain [x]. *)
Lemma list_remove_Some (x : A) l :
  In x l -> exists l', list_remove x l = Some l'.
Proof.
  induction l as [|y r IH]; simpl; [tauto|].
  intros Hin. destruct (py_eqb_spec y x) as [->|Hne]; [eauto|].
  destruct IH as [r' ->]; [destruct Hin; congruence | eauto].
Qed.

Lemma list_remove_None (x : A) l :
  list_remove x l = None <-> ~ In x l.
Proof.
  induction l as [|y r IH]; simpl; [tauto|].
  destruct (py_eqb_spec y x) as [->|Hne].
  - split; [discriminate | tauto].
  - destruct (list_remove x r).
    + split; [discriminate|]. intros Hn. exfalso.
      assert (~ In x r) as Hr by tauto. apply IH in Hr. discriminate.
    + split; [|reflexivity]. intros _ [E|I]; [congruence|].
      now apply IH in I.
Qed.

Lemma list_remove_perm (x : A) l l' :
  list_remove x l = Some l' -> Permutation l (x :: l').
Proof.
  revert l'. induction l as [|y r IH]; simpl; [discriminate|].
  intros l'. destruct (py_eqb_spec y x) as [->|Hne].
  - intros [= <-]. reflexivity.
  - destruct (list_remove x r) as [r'|]; [|discriminate].
    intros [= <-]. rewrite (IH r' eq_refl). apply perm_swap.
Qed.

Lemma list_remove_length (x : A) l l' :
  list_remove x l = Some l' -> length l = S (length l').
Proof.
  intros Hr. apply list_remove_perm, Permutation_length in Hr. exact Hr.
Qed.

Lemma set_of_list_In (x : A) l : In x (set_of_list l) <-> In x l.
Proof.
  induction l as [|y r IH]; simpl; [tauto|].
  destruct (list_mem y r) eqn:E.
  - rewrite IH. apply list_mem_In in E.
    split; [tauto | intros [->|I]; assumption].
  - simpl. now rewrite IH.
Qed.

Lemma set_of_list_NoDup l : NoDup (set_of_list l).
Proof.
  induction l as [|y r IH]; simpl; [constructor|].
  destruct (list_mem y r) eqn:E; [assumption|].
  constructor; [|assumption].
  rewrite set_of_list_In. now apply list_mem_false.
Qed.

Lemma set_difference_In (x : A) s t :
  In x (set_difference s t) <-> In x s /\ ~ In x t.
Proof.
  unfold set_difference. rewrite filter_In, negb_true_iff, list_mem_false.
  tauto.
Qed.

Lemma set_remove_In (x y : A) s :
  In y (set_remove x s) <-> In y s /\ y <> x.
Proof.
  unfold set_remove. rewrite filter_In, negb_true_iff.
  destruct (py_eqb_spec y x); split; intros [? ?]; split;
    congruence || assumption.
Qed.
End PyListFacts.

Section PyDictFacts.
Context {K V : Type} `{PyEq K}.
Implicit Types (d : dict K V) (k : K) (v : V).

Lemma dict_get_set_same k v d : dict_get k (dict_set k v d) = Some v.
Proof.
  induction d as [|[k' v'] r IH]; simpl.
  - now rewrite py_eqb_refl.
  - destruct (py_eqb k' k) eqn:E; simpl; rewrite E; [reflexivity | exact IH].
Qed.

Lemma dict_get_set_other k k' v d :
  k' <> k -> dict_get k' (dict_set k v d) = dict_get k' d.
Proof.
  intros Hne. induction d as [|[k0 v0] r IH]; simpl.
  - now rewrite py_eqb_neq by congruence.
  - destruct (py_eqb_spec k0 k) as [->|Hk]; simpl.
    + now rewrite py_eqb_neq by congruence.
    + now rewrite IH.
Qed.

Lemma dict_get_In k v d : dict_get k d = Some v -> In (k, v) d.
Proof.
  induction d as [|[k0 v0] r IH]; simpl; [discriminate|].
  destruct (py_eqb_spec k0 k) as [->|Hk].
  - intros [= ->]. now left.
  - intros Hg. right. now apply IH.
Qed.

Lemma dict_get_None k d : dict_get k d = None <-> ~ In k (dict_keys d).
Proof.
  induction d as [|[k0 v0] r IH]; simpl; [tauto|].
  destruct (py_eqb_spec k0 k) as [->|Hk].
  - split; [discriminate | tauto].
  - rewrite IH. tauto.
Qed.

(** With distinct keys, the entries are what [get] finds. *)
Lemma In_dict_get k v d :
  NoDup (dict_keys d) -> In (k, v) d -> dict_get k d = Some v.
Proof.
  induction d as [|[k0 v0] r IH]; simpl; [tauto|].
  intros Hnd [E|I].
  - inversion E; subst. now rewrite py_eqb_refl.
  - inversion Hnd as [|? ? Hni Hnd']; subst.
    destruct (py_eqb_spec k0 k) as [->|Hk].
    + exfalso. apply Hni. change k with (fst (k, v)). now apply in_map.
    + now apply IH.
Qed.

(** An entry of [d[k] = v] is the new one or an old one. *)
Lemma In_dict_set k v k' v' d :
  In (k', v') (dict_set k v d) -> (k' = k /\ v' = v) \/ In (k', v') d.
Proof.
  induction d as [|[k0 v0] r IH]; simpl.
  - intros [[= <- <-]|[]]. now left.
  - destruct (py_eqb_spec k0 k) as [->|Hk]; simpl.
    + intros [[= <- <-]|I]; [now left | right; now right].
    + intros [E|I]; [right; now left|].
      destruct (IH I) as [?|?]; [now left | right; now right].
Qed.

Lemma dict_keys_set_In k v d : In k (dict_keys d) ->
  dict_keys (dict_set k v d) = dict_keys d.
Proof.
  induction d as [|[k0 v0] r IH]; simpl; [tauto|].
  destruct (py_eqb_spec k0 k) as [->|Hk]; simpl; [reflexivity|].
  intros [E|I]; [congruence|]. now rewrite IH.
Qed.

Lemma dict_keys_set_new k v d : ~ In k (dict_keys d) ->
  dict_keys (dict_set k v d) = dict_keys d ++ [k].
Proof.
  induction d as [|[k0 v0] r IH]; simpl; [reflexivity|].
  destruct (py_eqb_spec k0 k) as [->|Hk]; simpl; [tauto|].
  intros Hn. rewrite IH; tauto.
Qed.
End PyDictFacts.

(** ** Running the monad *)

Ltac run := unfold bind, ret, gets, raise, put_schedule; simpl.

Lemma bind_gets {A B} (f : Scheduler -> A) (k : A -> M B) st :
  (x <- gets f ;; k x) st = k (f st) st.
Proof. reflexivity. Qed.

(** A loop whose body only computes is a fold and keeps the state. *)
Lemma foldM_pure {A B} (body : B -> A -> M B) (f : B -> A -> B) st l :
  (forall acc x, body acc x st = Ok (f acc x, st)) ->
  forall acc, foldM body l acc st = Ok (fold_left f l acc, st).
Proof.
  intros Hbody. induction l as [|x r IH]; intros acc; simpl.
  - reflexivity.
  - unfold bind. rewrite Hbody. apply IH.
Qed.

Lemma find_teacher_conflicts_run st :
  find_teacher_conflicts st = Ok (conflicts_of (teachers st) (schedule st), st).
Proof.
  unfold find_teacher_conflicts, conflicts_of. run.
  apply foldM_pure. intros tc [teacher subs]. run.
  unfold scan_subjects.
  rewrite (foldM_pure _
             (fun acc subject =>
                scan_slots teacher subject (dict_get_list subject (schedule st)) acc)).
  - reflexivity.
  - intros acc subject. run. unfold scan_slots.
    now apply foldM_pure.
Qed.

Lemma find_alternative_slot_run c st :
  find_alternative_slot c st =
  Ok (find (fun slot => negb (list_mem slot (occupied (schedule st)))) (time_slots st), st).
Proof. reflexivity. Qed.

Lemma occupied_In sched slot : In slot (occupied sched) <-> slot_occupied sched slot.
Proof.
  unfold occupied, dict_values, slot_occupied. rewrite in_concat. split.
  - intros (slots & Hin & Hs). apply in_map_iff in Hin as ([subject slots'] & E & Hin).
    simpl in E; subst. eauto.
  - intros (subject & slots & Hin & Hs). exists slots. split; [|assumption].
    change slots with (snd (subject, slots)). now apply in_map.
Qed.

Lemma free_test sched slot :
  negb (list_mem slot (occupied sched)) = true <-> ~ slot_occupied sched slot.
Proof. now rewrite negb_true_iff, list_mem_false, occupied_In. Qed.

(** ** The alternative-slot search *)

Lemma find_first {A} (p : A -> bool) l x :
  find p l = Some x <->
  exists before after, l = before ++ x :: after /\ p x = true /\
                       forall y, In y before -> p y = false.
Proof.
  induction l as [|a r IH]; simpl.
  - split; [discriminate|]. intros (b & a & E & _). now destruct b.
  - destruct (p a) eqn:Ea.
    + split.
      * intros [= <-]. exists [], r. simpl. repeat split; [assumption | tauto].
      * intros ([|b before] & after & E & Hx & Hb); simpl in E.
        -- congruence.
        -- injection E as <- _. rewrite (Hb a) in Ea; [discriminate | now left].
    + rewrite IH. split.
      * intros (before & after & -> & Hx & Hb). exists (a :: before), after.
        repeat split; [assumption|]. intros y [<-|I]; auto.
      * intros ([|b before] & after & E & Hx & Hb); simpl in E.
        -- injection E as <- _. congruence.
        -- injection E as <- ->. exists before, after.
           repeat split; [assumption|]. intros y I. apply Hb. now right.
Qed.

(** C7: [find_alternative_slot] returns without changing the object, and
    its result is the first slot of [time_slots] that no subject's slot list
    contains; it is [None] exactly when every slot of [time_slots] is
    occupied by some subject. *)
Theorem find_alternative_slot_first_free (st : Scheduler) (conflicting_slot : TimeSlot) :
  exists r, find_alternative_slot conflicting_slot st = Ok (r, st) /\
    (forall slot, r = Some slot <->
       exists before after,
         time_slots st = before ++ slot :: after /\
         ~ slot_occupied (schedule st) slot /\
         forall x, In x before -> slot_occupied (schedule st) x) /\
    (r = None <-> forall x, In x (time_slots st) -> slot_occupied (schedule st) x).
Proof.
  eexists. split; [apply find_alternative_slot_run|]. split.
  - intros slot. rewrite find_first. split.
    + intros (before & after & E & Hx & Hb). exists before, after.
      repeat split; [assumption | now apply free_test|].
      intros x Hin. specialize (Hb x Hin).
      apply negb_false_iff, list_mem_In, occupied_In in Hb. exact Hb.
    + intros (before & after & E & Hx & Hb). exists before, after.
      repeat split; [assumption | now apply free_test|].
      intros x Hin. apply negb_false_iff, list_mem_In, occupied_In. auto.
  - split.
    + intros Hnone x Hin.
      pose proof (find_none _ _ Hnone x Hin) as Hx. simpl in Hx.
      apply negb_false_iff, list_mem_In, occupied_In in Hx. exact Hx.
    + intros Hall.
      destruct (find _ (time_slots st)) as [slot|] eqn:E; [|reflexivity].
      apply find_some in E as [Hin Hfree]. apply free_test in Hfree.
      exfalso. auto.
Qed.

(** C8: the conflicting-slot argument of [find_alternative_slot] has no
    influence on its outcome: any two arguments give the same result and
    the same final state. *)
Theorem find_alternative_slot_ignores_argument (st : Scheduler) (slot1 slot2 : TimeSlot) :
  find_alternative_slot slot1 st = find_alternative_slot slot2 st.
Proof. now rewrite !find_alternative_slot_run. Qed.

(** ** Conflict detection is an observer *)

(** C10: [find_teacher_conflicts] returns a report and leaves the object
    (schedule, subjects, teachers, time slots) as it was; hence any number of
    calls placed before a computation leaves that computation's outcome
    unchanged. *)
Theorem find_teacher_conflicts_observer (st : Scheduler) :
  (exists report, find_teacher_conflicts st = Ok (report, st)) /\
  (forall (n : nat) (A : Type) (k : M A), (report_n n ;; k) st = k st).
Proof.
  split.
  - eexists. apply find_teacher_conflicts_run.
  - intros n A k. induction n as [|n IH]; simpl.
    + reflexivity.
    + unfold bind in *. rewrite find_teacher_conflicts_run. exact IH.
Qed.

(** ** The pipeline can raise *)

(** C1: on one subject that its teacher lists twice and two time slots, the
    pipeline raises [ValueError]: the second conflict record for the subject
    names a slot that the first relocation has already removed from the
    subject's list, and the relocation branch removes without testing. *)
Theorem pipeline_raises_on_repeated_subject (order : list TimeSlot -> nat) :
  pipeline order listed_twice = Raise ValueError.
Proof. reflexivity. Qed.

(** The same happens without any repeated subject, when three subjects of a
    teacher start on one slot: the first claimer is recorded twice. *)
Example pipeline_raises_on_three_sharing (order : list TimeSlot -> nat) :
  pipeline order three_share_room = Raise ValueError.
Proof. reflexivity. Qed.

(** ** Initialization *)

Lemma initialize_loop_run subs : forall avail st,
  foldM (fun available_slots subject =>
           match available_slots with
           | chosen_slot :: rest =>
               schedule_setitem subject [chosen_slot] ;; ret rest
           | [] =>
               schedule_setitem subject [] ;; ret []
           end) subs avail st =
  Ok (skipn (length subs) avail,
      with_schedule st (initialize_loop subs avail (schedule st))).
Proof.
  induction subs as [|subject others IH]; intros avail st; simpl.
  - destruct st; reflexivity.
  - destruct avail as [|chosen_slot rest]; run; unfold bind; rewrite IH; simpl;
      try rewrite skipn_nil; reflexivity.
Qed.

Lemma initialize_schedule_run st :
  initialize_schedule st =
  Ok (tt, with_schedule st
            (initialize_loop (subjects st) (time_slots st) (schedule st))).
Proof.
  unfold initialize_schedule. run. unfold bind.
  now rewrite initialize_loop_run.
Qed.

Lemma initialize_loop_other subject subs : forall avail sched,
  ~ In subject subs ->
  dict_get subject (initialize_loop subs avail sched) = dict_get subject sched.
Proof.
  induction subs as [|s others IH]; intros avail sched Hni; simpl.
  - reflexivity.
  - simpl in Hni.
    destruct avail as [|c rest]; rewrite IH by tauto;
      apply dict_get_set_other; intros ->; tauto.
Qed.

(** The entry of a subject is decided by its last occurrence in the list. *)
Lemma initialize_loop_last subs : forall avail sched i subject,
  nth_error subs i = Some subject ->
  (forall j, i < j -> nth_error subs j <> Some subject) ->
  dict_get subject (initialize_loop subs avail sched) =
  Some (match nth_error avail i with Some slot => [slot] | None => [] end).
Proof.
  induction subs as [|s others IH]; intros avail sched i subject Hi Hlast.
  - now destruct i.
  - destruct i as [|i]; simpl in Hi.
    + injection Hi as ->.
      assert (~ In subject others) as Hni.
      { intros Hin. apply In_nth_error in Hin as [j Hj].
        apply (Hlast (S j)); [lia | exact Hj]. }
      simpl. destruct avail as [|c rest]; rewrite initialize_loop_other by assumption;
        apply dict_get_set_same.
    + assert (forall j, i < j -> nth_error others j <> Some subject) as Hlast'.
      { intros j Hj. apply (Hlast (S j)). lia. }
      simpl. destruct avail as [|c rest].
      * rewrite (IH [] _ i subject Hi Hlast'). now destruct i.
      * apply (IH rest _ i subject Hi Hlast').
Qed.

Lemma scheduled_count_set subject slots sched :
  scheduled_count (dict_set subject slots sched) <=
  scheduled_count sched + match slots with [] => 0 | _ => 1 end.
Proof.
  unfold scheduled_count.
  induction sched as [|[k v] r IH]; simpl.
  - destruct slots; simpl; lia.
  - destruct (String.eqb k subject); simpl.
    + destruct slots, v; simpl; lia.
    + destruct v; simpl; lia.
Qed.

Lemma initialize_loop_count subs : forall avail sched,
  scheduled_count (initialize_loop subs avail sched) <=
  scheduled_count sched + length avail.
Proof.
  induction subs as [|s others IH]; intros avail sched; simpl; [lia|].
  destruct avail as [|c rest].
  - rewrite IH. pose proof (scheduled_count_set s [] sched). simpl in *. lia.
  - rewrite IH. pose proof (scheduled_count_set s [c] sched). simpl in *. lia.
Qed.

(** C3 as stated fails when a subject occurs twice: the first occurrence
    ends with the slot of the second. *)
Lemma initialize_schedule_repeated_subject :
  exists st',
    initialize_schedule subject_twice = Ok (tt, st') /\
    nth_error (subjects subject_twice) 0 = Some "A" /\
    nth_error (time_slots subject_twice) 0 = Some mon9 /\
    dict_get "A" (schedule st') <> Some [mon9].
Proof.
  eexists. split; [reflexivity|]. repeat split. discriminate.
Qed.

(** C3 (amended): on a freshly constructed object, [initialize_schedule]
    returns, changes the schedule only, and gives the [i]-th subject, when it
    does not occur again later in the subjects list, the singleton of the
    [i]-th time slot if there is one and the empty list otherwise; at most
    [len(time_slots)] subjects end up with a slot. *)
Theorem initialize_schedule_positional
    (subs : list Subject) (tchs : dict Teacher (list Subject)) (slots : list TimeSlot) :
  exists sched,
    initialize_schedule (Scheduler_init subs tchs slots) =
      Ok (tt, mkScheduler subs tchs slots sched) /\
    (forall i subject,
        nth_error subs i = Some subject ->
        (forall j, i < j -> nth_error subs j <> Some subject) ->
        dict_get subject sched =
        Some (match nth_error slots i with Some slot => [slot] | None => [] end)) /\
    scheduled_count sched <= length slots.
Proof.
  exists (initialize_loop subs slots []). split; [|split].
  - now rewrite initialize_schedule_run.
  - intros i subject. apply initialize_loop_last.
  - apply (initialize_loop_count subs slots []).
Qed.

Lemma initialize_schedule_positional_witness :
  dict_get "Physics" (initialize_loop (subjects sample) (time_slots sample) []) =
  Some [mon10].
Proof.
  destruct (initialize_schedule_positional
              (subjects sample) (teachers sample) (time_slots sample))
    as (sched & Hrun & Hpos & _).
  rewrite initialize_schedule_run in Hrun. injection Hrun as <-.
  apply (Hpos 1 "Physics").
  - reflexivity.
  - intros [|[|[|[|[|j]]]]] Hj; simpl; try lia; discriminate.
Defined.

(** ** Updates of one slot list *)

Lemma with_schedule_same st : with_schedule st (schedule st) = st.
Proof. now destruct st. Qed.

Lemma dict_set_set {K V} `{PyEq K} (k : K) (v1 v2 : V) d :
  dict_set k v2 (dict_set k v1 d) = dict_set k v2 d.
Proof.
  induction d as [|[k0 v0] r IH]; simpl.
  - now rewrite py_eqb_refl.
  - destruct (py_eqb k0 k) eqn:E; simpl; rewrite E; [reflexivity | now rewrite IH].
Qed.

Lemma schedule_remove_run subject time_slot st :
  schedule_remove subject time_slot st =
  match dict_get subject (schedule st) with
  | Some slots =>
      match list_remove time_slot slots with
      | Some slots' => Ok (tt, with_schedule st (dict_set subject slots' (schedule st)))
      | None => Raise ValueError
      end
  | None => Raise KeyError
  end.
Proof.
  unfold schedule_remove, schedule_getitem, schedule_setitem. run.
  destruct (dict_get subject (schedule st)) as [slots|]; [|reflexivity].
  simpl. now destruct (list_remove time_slot slots).
Qed.

Lemma schedule_append_run subject time_slot st :
  schedule_append subject time_slot st =
  match dict_get subject (schedule st) with
  | Some slots =>
      Ok (tt, with_schedule st (dict_set subject (slots ++ [time_slot]) (schedule st)))
  | None => Raise KeyError
  end.
Proof.
  unfold schedule_append, schedule_getitem, schedule_setitem. run.
  now destruct (dict_get subject (schedule st)).
Qed.

(** Removing a slot and appending one, with a pure read in between. *)
Lemma move_run subject time_slot (new_slot : Scheduler -> TimeSlot) st :
  (schedule_remove subject time_slot ;;
   slot <- gets new_slot ;;
   schedule_append subject slot) st =
  match dict_get subject (schedule st) with
  | Some slots =>
      match list_remove time_slot slots with
      | Some slots' =>
          let st1 := with_schedule st (dict_set subject slots' (schedule st)) in
          Ok (tt, with_schedule st
                    (dict_set subject (slots' ++ [new_slot st1]) (schedule st)))
      | None => Raise ValueError
      end
  | None => Raise KeyError
  end.
Proof.
  unfold bind at 1. rewrite schedule_remove_run.
  destruct (dict_get subject (schedule st)) as [slots|]; [|reflexivity].
  destruct (list_remove time_slot slots) as [slots'|]; [|reflexivity].
  unfold bind, gets. rewrite schedule_append_run. simpl.
  rewrite dict_get_set_same. unfold with_schedule; simpl.
  now rewrite dict_set_set.
Qed.

Lemma relocate_run subject time_slot slot st :
  (schedule_remove subject time_slot ;; schedule_append subject slot) st =
  match dict_get subject (schedule st) with
  | Some slots =>
      match list_remove time_slot slots with
      | Some slots' =>
          Ok (tt, with_schedule st (dict_set subject (slots' ++ [slot]) (schedule st)))
      | None => Raise ValueError
      end
  | None => Raise KeyError
  end.
Proof. apply (move_run subject time_slot (fun _ => slot) st). Qed.

Lemma swap_run swap_subject time_slot st :
  (schedule_remove swap_subject time_slot ;;
   alternative_slot <- find_alternative_slot time_slot ;;
   schedule_append swap_subject
     (match alternative_slot with
      | Some slot => slot
      | None => time_slot
      end)) st =
  (schedule_remove swap_subject time_slot ;;
   slot <- gets (swap_target time_slot) ;;
   schedule_append swap_subject slot) st.
Proof.
  unfold bind. destruct (schedule_remove swap_subject time_slot st) as [[[] st1]|];
    reflexivity.
Qed.

(** ** At most one slot per subject *)

Lemma at_most_one_set subject slots sched :
  at_most_one_slot sched -> length slots <= 1 ->
  at_most_one_slot (dict_set subject slots sched).
Proof.
  unfold at_most_one_slot. intros Hall Hlen.
  induction sched as [|[k v] r IH]; simpl.
  - constructor; [exact Hlen | constructor].
  - inversion Hall; subst.
    destruct (String.eqb k subject); constructor; auto.
Qed.

Lemma at_most_one_get subject slots sched :
  at_most_one_slot sched -> dict_get subject sched = Some slots ->
  length slots <= 1.
Proof.
  unfold at_most_one_slot. rewrite Forall_forall. intros Hall Hget.
  apply dict_get_In in Hget. apply (Hall _ Hget).
Qed.

(** A loop keeps what each successful run of its body keeps. *)
Lemma for_each_preserves {A} (P : Scheduler -> Prop) (body : A -> M unit) l :
  (forall x st st', P st -> body x st = Ok (tt, st') -> P st') ->
  forall st st', P st -> for_each l body st = Ok (tt, st') -> P st'.
Proof.
  intros Hbody. induction l as [|x r IH]; intros st st' HP; simpl.
  - run. now intros [= <-].
  - unfold bind. destruct (body x st) as [[[] st1]|] eqn:E; [|discriminate].
    intros Hrest. apply (IH st1); [|assumption]. now apply (Hbody x st).
Qed.

Lemma move_at_most_one subject time_slot new_slot st st' :
  at_most_one_slot (schedule st) ->
  (schedule_remove subject time_slot ;;
   slot <- gets new_slot ;;
   schedule_append subject slot) st = Ok (tt, st') ->
  at_most_one_slot (schedule st').
Proof.
  intros Hinv. rewrite move_run.
  destruct (dict_get subject (schedule st)) as [slots|] eqn:Hget; [|discriminate].
  destruct (list_remove time_slot slots) as [slots'|] eqn:Hrem; [|discriminate].
  intros [= <-]. simpl. apply at_most_one_set; [assumption|].
  apply (at_most_one_get _ _ _ Hinv) in Hget.
  apply list_remove_length in Hrem. rewrite length_app. simpl. lia.
Qed.

Lemma swap_loop_at_most_one subject time_slot items : forall st st',
  at_most_one_slot (schedule st) ->
  swap_loop subject time_slot items st = Ok (tt, st') ->
  at_most_one_slot (schedule st').
Proof.
  induction items as [|[swap_subject swap_slots] rest IH]; intros st st' Hinv; simpl.
  - run. now intros [= <-].
  - destruct (negb (String.eqb swap_subject subject) && list_mem time_slot swap_slots).
    + rewrite swap_run. now apply move_at_most_one.
    + now apply IH.
Qed.

Lemma resolve_conflict_at_most_one record st st' :
  at_most_one_slot (schedule st) ->
  resolve_conflict record st = Ok (tt, st') ->
  at_most_one_slot (schedule st').
Proof.
  destruct record as [subject time_slot]. intros Hinv.
  unfold resolve_conflict. unfold bind at 1. rewrite find_alternative_slot_run.
  destruct (find _ (time_slots st)) as [slot|].
  - apply (move_at_most_one subject time_slot (fun _ => slot) st st' Hinv).
  - run. now apply swap_loop_at_most_one.
Qed.

Lemma resolve_teacher_conflicts_at_most_one st st' :
  at_most_one_slot (schedule st) ->
  resolve_teacher_conflicts st = Ok (tt, st') ->
  at_most_one_slot (schedule st').
Proof.
  intros Hinv. unfold resolve_teacher_conflicts. unfold bind at 1.
  rewrite find_teacher_conflicts_run.
  apply (for_each_preserves (fun st => at_most_one_slot (schedule st))); [|assumption].
  intros [teacher sub_time_pairs].
  apply (for_each_preserves (fun st => at_most_one_slot (schedule st))).
  intros record st1 st2. apply resolve_conflict_at_most_one.
Qed.

Lemma initialize_loop_at_most_one subs : forall avail sched,
  at_most_one_slot sched -> at_most_one_slot (initialize_loop subs avail sched).
Proof.
  induction subs as [|s others IH]; intros avail sched Hinv; simpl; [assumption|].
  destruct avail as [|c rest]; apply IH; apply at_most_one_set; simpl; auto.
Qed.

(** ** Finalization *)

Lemma setitem_ret_run {A} subject slots (x : A) st :
  (schedule_setitem subject slots ;; ret x) st =
  Ok (x, with_schedule st (dict_set subject slots (schedule st))).
Proof. reflexivity. Qed.

Lemma finalize_loop_run order subs : forall avail st,
  exists avail',
    foldM (fun available_slots subject =>
             match set_first order available_slots with
             | Some time_slot =>
                 schedule_setitem subject [time_slot] ;;
                 ret (set_remove time_slot available_slots)
             | None => ret available_slots
             end) subs avail st =
    Ok (avail', with_schedule st (finalize_loop order subs avail (schedule st))).
Proof.
  induction subs as [|subject others IH]; intros avail st; simpl.
  - exists avail. run. now rewrite with_schedule_same.
  - unfold bind at 1. destruct (set_first order avail) as [time_slot|].
    + rewrite setitem_ret_run.
      destruct (IH (set_remove time_slot avail)
                   (with_schedule st (dict_set subject [time_slot] (schedule st))))
        as [avail' E]. exists avail'. exact E.
    + apply IH.
Qed.

Lemma finalize_schedule_run order st :
  finalize_schedule order st =
  Ok (tt, with_schedule st
            (finalize_loop order
               (filter (unassigned (schedule st)) (subjects st))
               (set_difference (set_of_list (time_slots st)) (occupied (schedule st)))
               (schedule st))).
Proof.
  unfold finalize_schedule. rewrite !bind_gets. unfold bind at 1.
  destruct (finalize_loop_run order
              (filter (unassigned (schedule st)) (subjects st))
              (set_difference (set_of_list (time_slots st)) (occupied (schedule st)))
              st) as [avail' ->].
  reflexivity.
Qed.

Lemma finalize_loop_at_most_one order subs : forall avail sched,
  at_most_one_slot sched -> at_most_one_slot (finalize_loop order subs avail sched).
Proof.
  induction subs as [|s others IH]; intros avail sched Hinv; simpl; [assumption|].
  destruct (set_first order avail); apply IH; [|assumption].
  apply at_most_one_set; simpl; auto.
Qed.

(** C9: from a freshly constructed object, every subject's slot list has at
    most one slot after [initialize_schedule]; if [resolve_teacher_conflicts]
    then returns, the same holds after it; and [finalize_schedule] then
    returns with the same again. *)
Theorem pipeline_at_most_one_slot
    (subs : list Subject) (tchs : dict Teacher (list Subject)) (slots : list TimeSlot)
    (order : list TimeSlot -> nat) :
  exists st1,
    initialize_schedule (Scheduler_init subs tchs slots) = Ok (tt, st1) /\
    at_most_one_slot (schedule st1) /\
    forall st2,
      resolve_teacher_conflicts st1 = Ok (tt, st2) ->
      at_most_one_slot (schedule st2) /\
      exists st3,
        finalize_schedule order st2 = Ok (tt, st3) /\
        at_most_one_slot (schedule st3).
Proof.
  eexists. split; [apply initialize_schedule_run|].
  assert (at_most_one_slot (initialize_loop subs slots [])) as H1.
  { apply initialize_loop_at_most_one. constructor. }
  split; [exact H1|].
  intros st2 Hres.
  assert (at_most_one_slot (schedule st2)) as H2.
  { eapply resolve_teacher_conflicts_at_most_one; [|exact Hres]. exact H1. }
  split; [exact H2|].
  eexists. split; [apply finalize_schedule_run|].
  simpl. now apply finalize_loop_at_most_one.
Qed.

Lemma pipeline_at_most_one_slot_witness :
  exists st2,
    (initialize_schedule ;; resolve_teacher_conflicts) repeated_slot = Ok (tt, st2) /\
    schedule st2 <> initialize_loop (subjects repeated_slot) (time_slots repeated_slot) [] /\
    at_most_one_slot (schedule st2).
Proof.
  destruct (pipeline_at_most_one_slot
              (subjects repeated_slot) (teachers repeated_slot)
              (time_slots repeated_slot) (fun _ => 0))
    as (st1 & Hinit & _ & Hres).
  rewrite initialize_schedule_run in Hinit. injection Hinit as <-.
  eexists. split; [reflexivity|]. split; [discriminate|].
  apply Hres. reflexivity.
Defined.

(** ** What finalization touches *)

Lemma holds_occupied sched subject slot :
  holds sched subject slot -> slot_occupied sched slot.
Proof.
  unfold holds, dict_get_list, slot_occupied.
  destruct (dict_get subject sched) as [slots|] eqn:Hget; [|intros []].
  intros Hin. exists subject, slots. split; [now apply dict_get_In | assumption].
Qed.

Lemma set_first_In order s slot : set_first order s = Some slot -> In slot s.
Proof. unfold set_first. apply nth_error_In. Qed.

(** Every entry after the loop is the old one or a singleton from the pool. *)
Lemma finalize_loop_entry order subs : forall avail sched subject,
  dict_get subject (finalize_loop order subs avail sched) = dict_get subject sched \/
  (In subject subs /\
   exists slot, In slot avail /\
     dict_get subject (finalize_loop order subs avail sched) = Some [slot]).
Proof.
  induction subs as [|s others IH]; intros avail sched subject; simpl.
  - now left.
  - destruct (set_first order avail) as [time_slot|] eqn:Hfirst.
    + destruct (IH (set_remove time_slot avail)
                   (dict_set s [time_slot] sched) subject)
        as [Hsame|(Hin & slot & Hslot & Hget)].
      * rewrite Hsame. destruct (String.eqb_spec subject s) as [->|Hne].
        -- right. split; [now left|]. exists time_slot.
           split; [now apply (set_first_In order) | apply dict_get_set_same].
        -- left. now apply dict_get_set_other.
      * right. split; [now right|]. exists slot.
        apply set_remove_In in Hslot. tauto.
    + destruct (IH avail sched subject) as [Hsame|(Hin & slot & Hslot & Hget)].
      * now left.
      * right. split; [now right | eauto].
Qed.

(** A slot of the pool is handed to at most one subject. *)
Lemma finalize_loop_once order subs : forall avail sched,
  (forall slot subject, In slot avail -> ~ holds sched subject slot) ->
  forall slot s1 s2,
    In slot avail ->
    holds (finalize_loop order subs avail sched) s1 slot ->
    holds (finalize_loop order subs avail sched) s2 slot ->
    s1 = s2.
Proof.
  induction subs as [|s others IH]; intros avail sched Hfree slot s1 s2 Hin; simpl.
  - intros H1. now apply Hfree in H1.
  - destruct (set_first order avail) as [time_slot|] eqn:Hfirst; [|now apply IH].
    assert (forall slot subject,
               In slot (set_remove time_slot avail) ->
               ~ holds (dict_set s [time_slot] sched) subject slot) as Hfree'.
    { intros slot' subject Hin'. apply set_remove_In in Hin' as [Hin' Hne].
      unfold holds, dict_get_list.
      destruct (String.eqb_spec subject s) as [->|Hs].
      - rewrite dict_get_set_same. simpl. intros [E|[]]. congruence.
      - rewrite dict_get_set_other by assumption. now apply Hfree. }
    destruct (py_eqb_spec (A := string * string) slot time_slot) as [->|Hne].
    + (* the slot just handed out: held by [s] alone from here on *)
      assert (forall subject,
                 holds (finalize_loop order others (set_remove time_slot avail)
                          (dict_set s [time_slot] sched)) subject time_slot ->
                 subject = s) as Hs.
      { intros subject. unfold holds at 1, dict_get_list.
        destruct (finalize_loop_entry order others (set_remove time_slot avail)
                    (dict_set s [time_slot] sched) subject)
          as [Hsame|(_ & slot' & Hslot' & Hget)].
        - rewrite Hsame. destruct (String.eqb_spec subject s) as [->|Hsub]; [reflexivity|].
          rewrite dict_get_set_other by assumption.
          intros Hh. exfalso. now apply (Hfree time_slot subject).
        - rewrite Hget. apply set_remove_In in Hslot' as [_ Hne].
          simpl. intros [E|[]]. congruence. }
      intros H1 H2. rewrite (Hs s1 H1), (Hs s2 H2). reflexivity.
    + apply IH; [assumption|]. apply set_remove_In. now split.
Qed.

Lemma finalize_loop_app order subs1 : forall subs2 avail sched,
  finalize_loop order (subs1 ++ subs2) avail sched =
  finalize_loop order subs2 (finalize_pool order subs1 avail)
    (finalize_loop order subs1 avail sched).
Proof.
  induction subs1 as [|s others IH]; intros subs2 avail sched; simpl; [reflexivity|].
  destruct (set_first order avail); apply IH.
Qed.

(** The pool never holds a slot that the schedule of the moment uses. *)
Lemma finalize_pool_free order subs : forall avail sched,
  (forall slot, In slot avail -> ~ slot_occupied sched slot) ->
  forall slot, In slot (finalize_pool order subs avail) ->
               ~ slot_occupied (finalize_loop order subs avail sched) slot.
Proof.
  induction subs as [|s others IH]; intros avail sched Hfree; simpl; [assumption|].
  destruct (set_first order avail) as [time_slot|]; apply IH; [|assumption].
  intros slot Hin (k & l & Hkl & Hl). apply set_remove_In in Hin as [Hin Hne].
  apply In_dict_set in Hkl as [[-> ->]|Hkl].
  - destruct Hl as [Hl|[]]. congruence.
  - apply (Hfree slot Hin). now exists k, l.
Qed.

Lemma finalize_pool_incl order subs : forall avail slot,
  In slot (finalize_pool order subs avail) -> In slot avail.
Proof.
  induction subs as [|s others IH]; intros avail slot; simpl; [auto|].
  destruct (set_first order avail) as [time_slot|]; intros Hin; apply IH in Hin;
    [|assumption].
  now apply set_remove_In in Hin as [Hin _].
Qed.

Lemma unassigned_spec sched subject :
  unassigned sched subject = true <->
  dict_get subject sched = None \/ dict_get subject sched = Some [].
Proof.
  unfold unassigned. destruct (dict_get subject sched) as [[|slot slots]|].
  - split; [now right | reflexivity].
  - split; [discriminate | intros [?|?]; discriminate].
  - split; [now left | reflexivity].
Qed.

(** C2: [finalize_schedule] returns whatever the set order is.  The slot
    its loop takes for a subject is, at that moment, a slot of [time_slots]
    that is in no subject's list.  A subject with a non-empty slot list keeps
    it.  A subject whose entry changes was unassigned (no entry or an empty
    list), is in the subjects list, and ends with one slot of [time_slots]
    that no subject held before the call.  A slot that was free before the
    call ends in at most one subject's list. *)
Theorem finalize_schedule_frame (order : list TimeSlot -> nat) (st : Scheduler) :
  exists sched',
    finalize_schedule order st = Ok (tt, with_schedule st sched') /\
    (forall done subject todo time_slot,
        unassigned_subjects st = done ++ subject :: todo ->
        set_first order (finalize_pool order done (free_pool st)) = Some time_slot ->
        let sched_then := finalize_loop order done (free_pool st) (schedule st) in
        In time_slot (time_slots st) /\
        ~ slot_occupied sched_then time_slot /\
        sched' =
          finalize_loop order todo
            (set_remove time_slot (finalize_pool order done (free_pool st)))
            (dict_set subject [time_slot] sched_then)) /\
    (forall subject slots,
        dict_get subject (schedule st) = Some slots -> slots <> [] ->
        dict_get subject sched' = Some slots) /\
    (forall subject,
        dict_get subject sched' <> dict_get subject (schedule st) ->
        unassigned (schedule st) subject = true /\
        In subject (subjects st) /\
        exists slot,
          dict_get subject sched' = Some [slot] /\
          In slot (time_slots st) /\
          ~ slot_occupied (schedule st) slot) /\
    (forall slot s1 s2,
        ~ slot_occupied (schedule st) slot ->
        holds sched' s1 slot -> holds sched' s2 slot -> s1 = s2).
Proof.
  eexists. split; [apply finalize_schedule_run|].
  fold (unassigned_subjects st). fold (free_pool st).
  set (subs := unassigned_subjects st).
  set (avail := free_pool st).
  assert (forall slot, In slot avail ->
            In slot (time_slots st) /\ ~ slot_occupied (schedule st) slot) as Havail.
  { intros slot Hin. apply set_difference_In in Hin as [Hts Hocc].
    rewrite set_of_list_In in Hts. now rewrite occupied_In in Hocc. }
  split; [|split; [|split]].
  - intros done subject todo time_slot Hsplit Hfirst. cbv zeta.
    fold avail in Hfirst |- *. fold subs in Hsplit.
    split; [|split].
    + apply set_first_In, finalize_pool_incl in Hfirst. now apply Havail.
    + apply set_first_In in Hfirst. revert Hfirst.
      apply finalize_pool_free. intros slot Hin. now apply Havail.
    + rewrite Hsplit, finalize_loop_app. simpl. now rewrite Hfirst.
  - intros subject slots Hget Hne.
    destruct (finalize_loop_entry order subs avail (schedule st) subject)
      as [Hsame|(Hin & _)].
    + now rewrite Hsame.
    + apply filter_In in Hin as [_ Hun]. apply unassigned_spec in Hun.
      rewrite Hget in Hun. destruct Hun as [?|[= ->]]; [discriminate | congruence].
  - intros subject Hchg.
    destruct (finalize_loop_entry order subs avail (schedule st) subject)
      as [Hsame|(Hin & slot & Hslot & Hget)]; [congruence|].
    apply filter_In in Hin as [Hin Hun]. repeat split; try assumption.
    exists slot. destruct (Havail slot Hslot). auto.
  - intros slot s1 s2 Hfree H1 H2.
    assert (forall subject, ~ holds (schedule st) subject slot) as Hnone.
    { intros subject Hh. apply Hfree. now apply (holds_occupied _ subject). }
    assert (forall subject,
               holds (finalize_loop order subs avail (schedule st)) subject slot ->
               In slot avail) as Hpool.
    { intros subject. unfold holds at 1, dict_get_list.
      destruct (finalize_loop_entry order subs avail (schedule st) subject)
        as [Hsame|(_ & slot' & Hslot' & Hget)].
      - rewrite Hsame. intros Hh. now apply Hnone in Hh.
      - rewrite Hget. simpl. intros [<-|[]]. assumption. }
    apply (finalize_loop_once order subs avail (schedule st)) with (slot := slot);
      try assumption.
    + intros slot' subject Hin Hh. apply Havail in Hin as [_ Hocc].
      apply Hocc. now apply (holds_occupied _ subject).
    + now apply (Hpool s1).
Qed.

Lemma finalize_schedule_frame_witness :
  exists sched',
    finalize_schedule (fun _ => 0) late_subject = Ok (tt, with_schedule late_subject sched') /\
    dict_get "A" sched' = Some [mon9] /\
    exists slot,
      dict_get "B" sched' = Some [slot] /\ ~ slot_occupied (schedule late_subject) slot.
Proof.
  destruct (finalize_schedule_frame (fun _ => 0) late_subject)
    as (sched' & Hrun & _ & Hkeep & Hchg & _).
  exists sched'. split; [exact Hrun|]. split.
  - apply Hkeep; [reflexivity | discriminate].
  - destruct (Hchg "B") as (_ & _ & slot & Hget & _ & Hfree); [|eauto].
    rewrite finalize_schedule_run in Hrun. unfold with_schedule in Hrun.
    injection Hrun as <-. discriminate.
Defined.

(** ** The report of [find_teacher_conflicts] *)

Lemma teacher_records_app vs : forall occ ws,
  teacher_records occ (vs ++ ws) =
  teacher_records occ vs ++ teacher_records (claims_after occ vs) ws.
Proof.
  induction vs as [|[subject slot] rest IH]; intros occ ws; simpl; [reflexivity|].
  destruct (dict_get slot occ); simpl; now rewrite IH.
Qed.

Lemma claims_after_app vs : forall occ ws,
  claims_after occ (vs ++ ws) = claims_after (claims_after occ vs) ws.
Proof.
  induction vs as [|[subject slot] rest IH]; intros occ ws; simpl; [reflexivity|].
  destruct (dict_get slot occ); now rewrite IH.
Qed.

Lemma record_all_app teacher rs1 rs2 tc :
  record_all teacher (rs1 ++ rs2) tc = record_all teacher rs2 (record_all teacher rs1 tc).
Proof. unfold record_all. apply fold_left_app. Qed.

Lemma scan_slots_records teacher subject slots : forall tc occ,
  scan_slots teacher subject slots (tc, occ) =
  (record_all teacher (teacher_records occ (map (pair subject) slots)) tc,
   claims_after occ (map (pair subject) slots)).
Proof.
  unfold scan_slots.
  induction slots as [|slot rest IH]; intros tc occ; simpl; [reflexivity|].
  destruct (dict_get slot occ) as [first|]; now rewrite IH.
Qed.

Lemma scan_subjects_records sched teacher subs : forall tc occ,
  scan_subjects sched teacher subs (tc, occ) =
  (record_all teacher (teacher_records occ (visits sched subs)) tc,
   claims_after occ (visits sched subs)).
Proof.
  unfold scan_subjects.
  induction subs as [|subject rest IH]; intros tc occ; simpl; [reflexivity|].
  rewrite scan_slots_records, IH.
  now rewrite teacher_records_app, claims_after_app, record_all_app.
Qed.

Lemma conflicts_of_report tchs sched :
  conflicts_of tchs sched = report_from sched tchs [].
Proof.
  unfold conflicts_of, report_from. generalize (@nil (Teacher * list (Subject * TimeSlot))).
  induction tchs as [|[teacher subs] rest IH]; intros tc; simpl; [reflexivity|].
  now rewrite scan_subjects_records, IH.
Qed.

(** *** The accumulated dictionary *)

Lemma dict_get_list_set_same {K V} `{PyEq K} (k : K) (v : list V) d :
  dict_get_list k (dict_set k v d) = v.
Proof. unfold dict_get_list. now rewrite dict_get_set_same. Qed.

Lemma dict_get_list_set_other {K V} `{PyEq K} (k k' : K) (v : list V) d :
  k' <> k -> dict_get_list k' (dict_set k v d) = dict_get_list k' d.
Proof. intros Hne. unfold dict_get_list. now rewrite dict_get_set_other. Qed.

Lemma record_all_other teacher teacher' records : forall tc,
  teacher' <> teacher ->
  dict_get teacher' (record_all teacher records tc) = dict_get teacher' tc.
Proof.
  unfold record_all.
  induction records as [|r rest IH]; intros tc Hne; simpl; [reflexivity|].
  rewrite IH by assumption. unfold conflicts_append.
  now apply dict_get_set_other.
Qed.

Lemma record_all_same teacher records : forall tc,
  records <> [] ->
  dict_get teacher (record_all teacher records tc) =
  Some (dict_get_list teacher tc ++ records).
Proof.
  unfold record_all.
  induction records as [|r rest IH]; intros tc Hne; [congruence|]. simpl.
  destruct rest as [|r' rest'].
  - simpl. unfold conflicts_append. apply dict_get_set_same.
  - rewrite IH by discriminate. unfold conflicts_append.
    rewrite dict_get_list_set_same, <- app_assoc. reflexivity.
Qed.

Lemma record_all_list teacher records tc :
  dict_get_list teacher (record_all teacher records tc) =
  dict_get_list teacher tc ++ records.
Proof.
  destruct records as [|r rs].
  - simpl. now rewrite app_nil_r.
  - unfold dict_get_list at 1. now rewrite record_all_same by discriminate.
Qed.

Lemma report_from_get sched teacher tchs : forall tc,
  dict_get teacher (report_from sched tchs tc) =
  match records_under sched teacher tchs with
  | [] => dict_get teacher tc
  | records => Some (dict_get_list teacher tc ++ records)
  end.
Proof.
  unfold report_from.
  induction tchs as [|[teacher' subs] rest IH]; intros tc; [reflexivity|].
  cbn [fold_left records_under]. rewrite IH. clear IH.
  set (here := teacher_records [] (visits sched subs)).
  set (later := records_under sched teacher rest).
  destruct (String.eqb_spec teacher' teacher) as [->|Hne].
  - rewrite record_all_list.
    destruct later as [|r' rs'].
    + rewrite app_nil_r. destruct here as [|r rs]; [reflexivity|].
      now apply record_all_same.
    + rewrite <- app_assoc.
      destruct here as [|r rs]; reflexivity.
  - unfold dict_get_list.
    rewrite record_all_other by congruence. reflexivity.
Qed.

Lemma records_under_In sched teacher subs tchs :
  In (teacher, subs) tchs ->
  exists pre post,
    records_under sched teacher tchs =
    pre ++ teacher_records [] (visits sched subs) ++ post.
Proof.
  induction tchs as [|[teacher' subs'] rest IH]; simpl; [tauto|].
  intros [[= -> ->]|Hin].
  - rewrite String.eqb_refl. exists [], (records_under sched teacher rest).
    reflexivity.
  - destruct (IH Hin) as (pre & post & ->).
    eexists (_ ++ pre), post. now rewrite <- app_assoc.
Qed.

Lemma records_under_nil sched teacher tchs :
  (forall subs, In (teacher, subs) tchs -> teacher_records [] (visits sched subs) = []) ->
  records_under sched teacher tchs = [].
Proof.
  induction tchs as [|[teacher' subs'] rest IH]; simpl; [reflexivity|].
  intros Hall. rewrite IH by (intros subs Hin; apply Hall; now right).
  destruct (String.eqb_spec teacher' teacher) as [->|Hne]; [|reflexivity].
  rewrite (Hall subs') by now left. reflexivity.
Qed.

(** *** The records of one teacher *)

Lemma visits_slots sched subs : map snd (visits sched subs) = teacher_slots sched subs.
Proof.
  unfold visits, teacher_slots. induction subs as [|subject rest IH]; simpl; [reflexivity|].
  rewrite map_app, IH, map_map. simpl. now rewrite map_id.
Qed.

Lemma visits_app sched subs1 subs2 :
  visits sched (subs1 ++ subs2) = visits sched subs1 ++ visits sched subs2.
Proof. unfold visits. apply flat_map_app. Qed.

Lemma visits_In sched subs subject slot :
  In (subject, slot) (visits sched subs) <-> In subject subs /\ holds sched subject slot.
Proof.
  unfold visits, holds. rewrite in_flat_map. split.
  - intros (x & Hx & Hin). apply in_map_iff in Hin as (y & [= <- <-] & Hy). auto.
  - intros [Hs Hh]. exists subject. split; [assumption|]. now apply in_map.
Qed.

(** A claimed slot stays with its first claimer. *)
Lemma claims_after_keeps slot first vs : forall occ,
  dict_get slot occ = Some first ->
  dict_get slot (claims_after occ vs) = Some first.
Proof.
  induction vs as [|[subject slot'] rest IH]; intros occ Hget; simpl; [assumption|].
  destruct (dict_get slot' occ) eqn:E; apply IH; [assumption|].
  rewrite dict_get_set_other; [assumption|]. intros ->. congruence.
Qed.

Lemma claims_after_unseen slot vs : forall occ,
  dict_get slot occ = None ->
  ~ In slot (map snd vs) ->
  dict_get slot (claims_after occ vs) = None.
Proof.
  induction vs as [|[subject slot'] rest IH]; intros occ Hget Hni; simpl; [assumption|].
  simpl in Hni.
  destruct (dict_get slot' occ) eqn:E; apply IH; try tauto.
  rewrite dict_get_set_other; [assumption|]. intros ->. tauto.
Qed.

(** The records are empty exactly when the visited slots are pairwise
    distinct and none was claimed before. *)
Lemma teacher_records_nil vs : forall occ,
  teacher_records occ vs = [] <->
  NoDup (map snd vs) /\ forall v, In v vs -> dict_get (snd v) occ = None.
Proof.
  induction vs as [|[subject slot] rest IH]; intros occ; simpl.
  - split; [|reflexivity]. intros _. split; [constructor | tauto].
  - destruct (dict_get slot occ) as [first|] eqn:E.
    + split; [discriminate|]. intros [_ Hall].
      specialize (Hall (subject, slot) (or_introl eq_refl)). simpl in Hall. congruence.
    + rewrite IH. split.
      * intros [Hnd Hall]. split.
        -- constructor; [|assumption]. intros Hin.
           apply in_map_iff in Hin as (v & Hv & Hin). specialize (Hall v Hin).
           rewrite Hv, dict_get_set_same in Hall. discriminate.
        -- intros v [<-|Hin]; [exact E|]. specialize (Hall v Hin).
           destruct (py_eqb_spec (A := string * string) (snd v) slot) as [Heq|Hne].
           ++ rewrite Heq, dict_get_set_same in Hall. discriminate.
           ++ now rewrite dict_get_set_other in Hall.
      * intros [Hnd Hall]. inversion Hnd as [|? ? Hni Hnd']; subst. split; [assumption|].
        intros v Hin. rewrite dict_get_set_other.
        -- apply Hall. now right.
        -- intros Heq. apply Hni. rewrite <- Heq. now apply in_map.
Qed.

(** A later subject on a slot is recorded right before its first claimer. *)
Lemma teacher_records_pair first later slot vs1 vs2 vs3 : forall occ,
  dict_get slot occ = None ->
  ~ In slot (map snd vs1) ->
  exists pre post,
    teacher_records occ (vs1 ++ (first, slot) :: vs2 ++ (later, slot) :: vs3) =
    pre ++ (later, slot) :: (first, slot) :: post.
Proof.
  intros occ Hget Hni.
  rewrite teacher_records_app. simpl.
  rewrite (claims_after_unseen slot vs1 occ Hget Hni).
  rewrite teacher_records_app. simpl.
  rewrite (claims_after_keeps slot first vs2) by apply dict_get_set_same.
  eexists (_ ++ _), _. rewrite <- app_assoc. reflexivity.
Qed.

(** With a slot already claimed, every visit of it is recorded, and so is
    the claimer. *)
Lemma teacher_records_claimed first subject slot vs : forall occ,
  dict_get slot occ = Some first ->
  In (subject, slot) vs ->
  In (subject, slot) (teacher_records occ vs) /\
  In (first, slot) (teacher_records occ vs).
Proof.
  induction vs as [|[subject' slot'] rest IH]; intros occ Hget Hin; simpl; [destruct Hin|].
  destruct (dict_get slot' occ) as [first'|] eqn:E.
  - destruct Hin as [[= -> ->]|Hin].
    + rewrite Hget in E. injection E as <-. split; [now left | right; now left].
    + destruct (IH occ Hget Hin). split; right; right; assumption.
  - destruct Hin as [[= -> ->]|Hin]; [congruence|].
    apply IH; [|assumption].
    rewrite dict_get_set_other; [assumption|]. intros ->. congruence.
Qed.

(** Two different subjects on one slot are both recorded. *)
Lemma teacher_records_both a b slot vs : forall occ,
  a <> b ->
  In (a, slot) vs -> In (b, slot) vs ->
  In (a, slot) (teacher_records occ vs) /\ In (b, slot) (teacher_records occ vs).
Proof.
  induction vs as [|[subject' slot'] rest IH]; intros occ Hab Ha Hb; [destruct Ha|].
  destruct (dict_get slot occ) as [first|] eqn:Hclaimed.
  - split.
    + now apply (teacher_records_claimed first a slot _ occ Hclaimed).
    + now apply (teacher_records_claimed first b slot _ occ Hclaimed).
  - simpl. destruct (dict_get slot' occ) as [first'|] eqn:E.
    + assert (slot' <> slot) as Hne by congruence.
      destruct Ha as [[= _ ?]|Ha]; [congruence|].
      destruct Hb as [[= _ ?]|Hb]; [congruence|].
      destruct (IH occ Hab Ha Hb). split; right; right; assumption.
    + destruct Ha as [Ea|Ha]; destruct Hb as [Eb|Hb].
      * exfalso. apply Hab. congruence.
      * (* [a] claims the slot, [b] comes later *)
        injection Ea as -> ->. apply and_comm.
        apply (teacher_records_claimed a b slot rest); [apply dict_get_set_same | assumption].
      * injection Eb as -> ->.
        apply (teacher_records_claimed b a slot rest); [apply dict_get_set_same | assumption].
      * now apply IH.
Qed.

(** Records come in pairs. *)
Lemma teacher_records_two vs : forall occ,
  teacher_records occ vs = [] \/ 2 <= length (teacher_records occ vs).
Proof.
  induction vs as [|[subject slot] rest IH]; intros occ; simpl; [now left|].
  destruct (dict_get slot occ); [right; simpl; lia | apply IH].
Qed.

Lemma in_split_first {A} `{PyEq A} (x : A) l :
  In x l -> exists l1 l2, l = l1 ++ x :: l2 /\ ~ In x l1.
Proof.
  induction l as [|y r IH]; simpl; [tauto|].
  intros Hin. destruct (py_eqb_spec y x) as [->|Hne].
  - exists [], r. split; [reflexivity | tauto].
  - destruct IH as (l1 & l2 & -> & Hni); [destruct Hin; congruence|].
    exists (y :: l1), l2. split; [reflexivity|]. intros [E|I]; auto.
Qed.

Lemma report_from_get_some sched teacher tchs :
  records_under sched teacher tchs <> [] ->
  dict_get teacher (report_from sched tchs []) = Some (records_under sched teacher tchs).
Proof.
  intros Hne. rewrite report_from_get.
  destruct (records_under sched teacher tchs); [congruence | reflexivity].
Qed.

Lemma holds_get_list sched subject slot :
  holds sched subject slot -> exists slots, dict_get subject sched = Some slots /\ In slot slots.
Proof.
  unfold holds, dict_get_list.
  destruct (dict_get subject sched) as [slots|]; [eauto | intros []].
Qed.

(** C4 as stated fails in both halves: with a third subject [C] of the
    teacher on the slot before [A] and [B], the entry has no [(A, S)] after
    [(B, S)]; and a teacher who lists one subject twice is in the report
    although no two subjects share a slot. *)
Lemma find_teacher_conflicts_earlier_claimer :
  (exists st records,
      initialize_schedule three_share = Ok (tt, st) /\
      teachers st = [("T", ["C"; "A"; "B"])] /\
      holds (schedule st) "A" mon9 /\ holds (schedule st) "B" mon9 /\
      find_teacher_conflicts st = Ok ([("T", records)], st) /\
      ~ (exists pre mid post,
            records = pre ++ ("B", mon9) :: mid ++ ("A", mon9) :: post)) /\
  (exists st records,
      initialize_schedule listed_twice = Ok (tt, st) /\
      teachers st = [("T", ["A"; "A"])] /\
      schedule st = [("A", [mon9])] /\
      find_teacher_conflicts st = Ok ([("T", records)], st)).
Proof.
  split.
  - do 2 eexists. split; [reflexivity|]. split; [reflexivity|].
    split; [now left|]. split; [now left|]. split; [reflexivity|].
    intros (pre & mid & post & E).
    destruct pre as [|r1 [|r2 [|r3 [|r4 pre]]]]; try discriminate E;
      simpl in E; injection E; clear E; intros;
      repeat match goal with
             | H : _ = ?l ++ _ :: _ |- _ => destruct l; simpl in H; try discriminate H
             | H : _ :: _ = _ :: _ ++ _ |- _ => injection H; clear H; intros
             end.
  - do 2 eexists. repeat split; reflexivity.
Qed.

(** C4 (amended): [find_teacher_conflicts] returns without changing the
    object.  If a teacher's subject list has [A] before [B], both hold the
    slot [S] and no subject listed before [A] holds [S], the teacher's entry
    contains [(B, S)] immediately followed by [(A, S)].  A teacher whose
    subject list leads to pairwise distinct slots (entries of the list and
    slots of each subject counted with repetition) has no entry. *)
Theorem find_teacher_conflicts_records (st : Scheduler) :
  exists report,
    find_teacher_conflicts st = Ok (report, st) /\
    (forall teacher before A between B after S,
        In (teacher, before ++ A :: between ++ B :: after) (teachers st) ->
        holds (schedule st) A S ->
        holds (schedule st) B S ->
        (forall subject, In subject before -> ~ holds (schedule st) subject S) ->
        exists pre post,
          dict_get teacher report = Some (pre ++ (B, S) :: (A, S) :: post)) /\
    (forall teacher,
        (forall subs, In (teacher, subs) (teachers st) ->
                      NoDup (teacher_slots (schedule st) subs)) ->
        dict_get teacher report = None).
Proof.
  eexists. split; [apply find_teacher_conflicts_run|].
  rewrite conflicts_of_report. split.
  - intros teacher before A between B after S Hin HA HB Hbefore.
    destruct (records_under_In (schedule st) _ _ _ Hin) as (pre0 & post0 & Hunder).
    apply holds_get_list in HA as (la & HgetA & HinA).
    apply holds_get_list in HB as (lb & HgetB & HinB).
    apply in_split_first in HinA as (la1 & la2 & -> & Hla1).
    apply in_split in HinB as (lb1 & lb2 & ->).
    assert (visits (schedule st) (before ++ A :: between ++ B :: after) =
            (visits (schedule st) before ++ map (pair A) la1) ++ (A, S)
              :: (map (pair A) la2 ++ visits (schedule st) between ++ map (pair B) lb1)
              ++ (B, S) :: (map (pair B) lb2 ++ visits (schedule st) after)) as Hvisits.
    { rewrite visits_app. change (A :: between ++ B :: after) with ([A] ++ between ++ [B] ++ after).
      rewrite !visits_app. unfold visits at 2 4. simpl. unfold dict_get_list.
      rewrite HgetA, HgetB, !app_nil_r, !map_app. simpl.
      repeat rewrite <- app_assoc. simpl. reflexivity. }
    assert (~ In S (map snd (visits (schedule st) before ++ map (pair A) la1))) as Hni.
    { rewrite map_app, in_app_iff, visits_slots, map_map, map_id.
      intros [Hin'|Hin']; [|tauto].
      unfold teacher_slots in Hin'. apply in_flat_map in Hin' as (x & Hx & Hh).
      now apply (Hbefore x). }
    destruct (teacher_records_pair A B S
                (visits (schedule st) before ++ map (pair A) la1)
                (map (pair A) la2 ++ visits (schedule st) between ++ map (pair B) lb1)
                (map (pair B) lb2 ++ visits (schedule st) after)
                [] eq_refl Hni)
      as (pre & post & Hrec).
    rewrite <- Hvisits in Hrec. rewrite Hrec in Hunder.
    exists (pre0 ++ pre), (post ++ post0).
    rewrite report_from_get_some.
    + rewrite Hunder. repeat rewrite <- app_assoc. reflexivity.
    + rewrite Hunder. intros E. apply (f_equal (@length _)) in E.
      rewrite !length_app in E. simpl in E. lia.
  - intros teacher Hall. rewrite report_from_get.
    rewrite records_under_nil; [reflexivity|].
    intros subs Hin. apply teacher_records_nil. rewrite visits_slots.
    split; [now apply Hall | reflexivity].
Qed.

Lemma find_teacher_conflicts_records_witness :
  exists pre post,
    dict_get "T" (conflicts_of (teachers two_share) (schedule two_share)) =
    Some (pre ++ ("B", mon9) :: ("A", mon9) :: post).
Proof.
  destruct (find_teacher_conflicts_records two_share) as (report & Hrun & Hpair & _).
  rewrite find_teacher_conflicts_run in Hrun. injection Hrun as <-.
  apply (Hpair "T" [] "A" [] "B" [] mon9).
  - now left.
  - now left.
  - now left.
  - intros subject [].
Defined.

(** ** Resolution without a free slot *)

Lemma same_slots_refl sched : same_slots sched sched.
Proof.
  unfold same_slots. induction sched as [|e r IH]; constructor; auto.
Qed.

Lemma same_slots_trans s1 s2 s3 :
  same_slots s1 s2 -> same_slots s2 s3 -> same_slots s1 s3.
Proof.
  unfold same_slots. intros H12. revert s3.
  induction H12 as [|e1 e2 r1 r2 [Hk Hp] _ IH]; intros s3 H23; inversion H23; subst.
  - constructor.
  - constructor; [|now apply IH].
    destruct H1 as [Hk' Hp']. split; [congruence | now rewrite Hp].
Qed.

Lemma same_slots_keys s1 s2 : same_slots s1 s2 -> dict_keys s2 = dict_keys s1.
Proof.
  unfold same_slots, dict_keys.
  induction 1 as [|e1 e2 r1 r2 [Hk Hp] _ IH]; simpl; congruence.
Qed.

Lemma same_slots_occupied s1 s2 slot :
  same_slots s1 s2 -> slot_occupied s1 slot -> slot_occupied s2 slot.
Proof.
  unfold same_slots, slot_occupied.
  induction 1 as [|[k1 l1] [k2 l2] r1 r2 [Hk Hp] _ IH]; simpl in *.
  - intros (? & ? & [] & _).
  - intros (subject & slots & [[= <- <-]|Hin] & Hs).
    + exists k2, l2. split; [now left | now rewrite <- Hp].
    + destruct IH as (subject' & slots' & Hin' & Hs'); [eauto|].
      exists subject', slots'. split; [now right | assumption].
Qed.

Lemma same_slots_get_list s1 s2 subject :
  same_slots s1 s2 ->
  Permutation (dict_get_list subject s1) (dict_get_list subject s2).
Proof.
  unfold same_slots, dict_get_list.
  induction 1 as [|[k1 l1] [k2 l2] r1 r2 [Hk Hp] _ IH]; simpl in *; [reflexivity|].
  subst k2. destruct (String.eqb k1 subject); assumption.
Qed.

Lemma same_slots_at_most_one s1 s2 :
  same_slots s1 s2 -> at_most_one_slot s1 -> at_most_one_slot s2.
Proof.
  unfold same_slots, at_most_one_slot.
  induction 1 as [|e1 e2 r1 r2 [Hk Hp] _ IH]; intros Hall; inversion Hall; subst;
    constructor; auto.
  now rewrite <- (Permutation_length Hp).
Qed.

Lemma same_slots_set subject slots slots' sched :
  dict_get subject sched = Some slots ->
  Permutation slots slots' ->
  same_slots sched (dict_set subject slots' sched).
Proof.
  unfold same_slots. intros Hget Hp.
  induction sched as [|[k l] r IH]; simpl in *; [discriminate|].
  destruct (String.eqb k subject).
  - injection Hget as ->. constructor; [now split | apply same_slots_refl].
  - constructor; [now split | now apply IH].
Qed.

Lemma dict_set_get_same {K V} `{PyEq K} (k : K) (v : V) d :
  dict_get k d = Some v -> dict_set k v d = d.
Proof.
  induction d as [|[k0 v0] r IH]; simpl; [discriminate|].
  destruct (py_eqb k0 k).
  - now intros [= ->].
  - intros Hget. now rewrite IH.
Qed.

Lemma In_dict_set_other {K V} `{PyEq K} (k k' : K) (v v' : V) d :
  k' <> k -> In (k', v') d -> In (k', v') (dict_set k v d).
Proof.
  intros Hne. induction d as [|[k0 v0] r IH]; simpl; [tauto|].
  destruct (py_eqb_spec k0 k) as [->|Hk]; simpl.
  - intros [[= <- <-]|Hin]; [congruence | now right].
  - intros [E|Hin]; [now left | right; now apply IH].
Qed.

Lemma In_dict_set_same {K V} `{PyEq K} (k : K) (v : V) d :
  In k (dict_keys d) -> In (k, v) (dict_set k v d).
Proof.
  induction d as [|[k0 v0] r IH]; simpl; [tauto|].
  destruct (py_eqb_spec k0 k) as [->|Hk]; simpl.
  - intros _. now left.
  - intros [E|Hin]; [congruence | right; now apply IH].
Qed.

Lemma rearranged_refl st : rearranged st st.
Proof. unfold rearranged. repeat split; auto using same_slots_refl. Qed.

Lemma rearranged_trans st1 st2 st3 :
  rearranged st1 st2 -> rearranged st2 st3 -> rearranged st1 st3.
Proof.
  unfold rearranged.
  intros (Hs & Ht & Hts & Hsame & Hone) (Hs' & Ht' & Hts' & Hsame' & Hone').
  repeat split; try congruence.
  - eapply same_slots_trans; eassumption.
  - intros H1. rewrite Hone' by (rewrite Hone; assumption). now apply Hone.
Qed.

Lemma saturated_rearranged st st' : rearranged st st' -> saturated st -> saturated st'.
Proof.
  unfold saturated. intros (_ & _ & Hts & Hsame & _) Hsat slot Hin.
  rewrite Hts in Hin. apply (same_slots_occupied _ _ _ Hsame). auto.
Qed.

Lemma find_saturated st :
  saturated st ->
  find (fun slot => negb (list_mem slot (occupied (schedule st)))) (time_slots st) = None.
Proof.
  intros Hsat.
  destruct (find _ (time_slots st)) as [slot|] eqn:E; [|reflexivity].
  apply find_some in E as [Hin Hfree]. apply free_test in Hfree.
  exfalso. auto.
Qed.

(** With every slot taken, the slot the swap removes is the only one it can
    put back. *)
Lemma swap_target_saturated st swap_subject swap_slots slots' time_slot :
  saturated st ->
  NoDup (dict_keys (schedule st)) ->
  In (swap_subject, swap_slots) (schedule st) ->
  list_remove time_slot swap_slots = Some slots' ->
  swap_target time_slot
    (with_schedule st (dict_set swap_subject slots' (schedule st))) = time_slot.
Proof.
  intros Hsat Hnd Hin Hrem. unfold swap_target. simpl.
  destruct (find _ (time_slots st)) as [slot|] eqn:E; [|reflexivity].
  apply find_some in E as [Hts Hfree]. apply free_test in Hfree.
  destruct (Hsat slot Hts) as (k & l & Hkl & Hl).
  destruct (String.eqb_spec k swap_subject) as [->|Hne].
  - assert (l = swap_slots) as ->.
    { apply (In_dict_get _ _ _ Hnd) in Hkl. apply (In_dict_get _ _ _ Hnd) in Hin.
      congruence. }
    apply list_remove_perm in Hrem.
    apply (Permutation_in _ Hrem) in Hl as [<-|Hl']; [reflexivity|].
    exfalso. apply Hfree. exists swap_subject, slots'. split; [|assumption].
    apply In_dict_set_same. change swap_subject with (fst (swap_subject, swap_slots)).
    now apply in_map.
  - exfalso. apply Hfree. exists k, l. split; [|assumption].
    now apply In_dict_set_other.
Qed.

Lemma swap_loop_saturated subject time_slot st :
  saturated st ->
  NoDup (dict_keys (schedule st)) ->
  forall items,
    incl items (schedule st) ->
    exists st', swap_loop subject time_slot items st = Ok (tt, st') /\ rearranged st st'.
Proof.
  intros Hsat Hnd.
  induction items as [|[swap_subject swap_slots] rest IH]; intros Hincl; simpl.
  - exists st. split; [reflexivity | apply rearranged_refl].
  - destruct (negb (String.eqb swap_subject subject) && list_mem time_slot swap_slots)
      eqn:Htest.
    + apply andb_true_iff in Htest as [_ Hmem]. apply list_mem_In in Hmem.
      assert (In (swap_subject, swap_slots) (schedule st)) as Hin
          by (apply Hincl; now left).
      destruct (list_remove_Some _ _ Hmem) as [slots' Hrem].
      rewrite swap_run, move_run.
      rewrite (In_dict_get _ _ _ Hnd Hin), Hrem. cbv zeta.
      rewrite (swap_target_saturated st swap_subject swap_slots slots' time_slot)
        by assumption.
      eexists. split; [reflexivity|].
      assert (Permutation swap_slots (slots' ++ [time_slot])) as Hperm.
      { rewrite (list_remove_perm _ _ _ Hrem). apply Permutation_cons_append. }
      unfold rearranged. simpl. repeat split.
      * apply (same_slots_set swap_subject swap_slots); [|assumption].
        now apply In_dict_get.
      * intros Hone. apply dict_set_get_same.
        rewrite (In_dict_get _ _ _ Hnd Hin). f_equal.
        assert (length swap_slots <= 1) as Hlen.
        { unfold at_most_one_slot in Hone. rewrite Forall_forall in Hone.
          apply (Hone _ Hin). }
        apply list_remove_length in Hrem.
        destruct slots'; [|simpl in Hrem; lia].
        destruct swap_slots as [|x [|y r]]; simpl in Hrem; try lia.
        apply Permutation_length_1 in Hperm. now subst.
    + apply IH. intros e He. apply Hincl. now right.
Qed.

Lemma resolve_conflict_saturated record st :
  saturated st ->
  NoDup (dict_keys (schedule st)) ->
  exists st', resolve_conflict record st = Ok (tt, st') /\ rearranged st st'.
Proof.
  intros Hsat Hnd. destruct record as [subject time_slot].
  unfold resolve_conflict. unfold bind at 1.
  rewrite find_alternative_slot_run, find_saturated by assumption.
  rewrite bind_gets. apply swap_loop_saturated; try assumption. apply incl_refl.
Qed.

(** A loop whose body always returns and keeps [P] does so too. *)
Lemma for_each_total {A} (P : Scheduler -> Prop) (body : A -> M unit) l :
  (forall x st, P st -> exists st', body x st = Ok (tt, st') /\ P st') ->
  forall st, P st -> exists st', for_each l body st = Ok (tt, st') /\ P st'.
Proof.
  intros Hbody. induction l as [|x r IH]; intros st HP; simpl.
  - exists st. now split.
  - unfold bind. destruct (Hbody x st HP) as (st1 & -> & HP1). now apply IH.
Qed.

Lemma report_from_In sched teacher subs tchs record :
  In (teacher, subs) tchs ->
  In record (teacher_records [] (visits sched subs)) ->
  exists records,
    dict_get teacher (report_from sched tchs []) = Some records /\ In record records.
Proof.
  intros Hin Hrec.
  destruct (records_under_In sched _ _ _ Hin) as (pre & post & Hunder).
  assert (In record (records_under sched teacher tchs)) as Hin'.
  { rewrite Hunder, !in_app_iff. tauto. }
  exists (records_under sched teacher tchs). split; [|assumption].
  apply report_from_get_some. intros E. now rewrite E in Hin'.
Qed.

(** C6: on a schedule (a dictionary, so with distinct keys) where every
    time slot is in some subject's list and two different subjects of a
    teacher hold one slot, [resolve_teacher_conflicts] returns; every slot
    list holds the same slots as before (the whole object is unchanged when
    no list had two slots); and [find_teacher_conflicts] still records both
    subjects with the slot under the teacher. *)
Theorem resolve_teacher_conflicts_saturated
    (st : Scheduler) (teacher : Teacher) (subs : list Subject)
    (A B : Subject) (S : TimeSlot) :
  NoDup (dict_keys (schedule st)) ->
  (forall slot, In slot (time_slots st) -> slot_occupied (schedule st) slot) ->
  In (teacher, subs) (teachers st) ->
  In A subs -> In B subs -> A <> B ->
  holds (schedule st) A S -> holds (schedule st) B S ->
  exists st',
    resolve_teacher_conflicts st = Ok (tt, st') /\
    same_slots (schedule st) (schedule st') /\
    (at_most_one_slot (schedule st) -> st' = st) /\
    exists report records,
      find_teacher_conflicts st' = Ok (report, st') /\
      dict_get teacher report = Some records /\
      In (A, S) records /\ In (B, S) records.
Proof.
  intros Hnd Hsat Hteacher HA HB Hab HholdsA HholdsB.
  set (P := fun st1 => rearranged st st1).
  assert (forall st1, P st1 -> saturated st1 /\ NoDup (dict_keys (schedule st1))) as HP.
  { intros st1 Hr. split; [now apply (saturated_rearranged st)|].
    destruct Hr as (_ & _ & _ & Hsame & _). now rewrite (same_slots_keys _ _ Hsame). }
  assert (exists st', resolve_teacher_conflicts st = Ok (tt, st') /\ P st')
    as (st' & Hrun & Hr).
  { unfold resolve_teacher_conflicts. unfold bind at 1.
    rewrite find_teacher_conflicts_run.
    apply (for_each_total P); [|apply rearranged_refl].
    intros [teacher' sub_time_pairs] st1 HP1.
    apply (for_each_total P); [|assumption].
    intros record st2 HP2. destruct (HP st2 HP2) as [Hsat2 Hnd2].
    destruct (resolve_conflict_saturated record st2 Hsat2 Hnd2) as (st3 & Hrun & Hr).
    exists st3. split; [assumption|]. now apply (rearranged_trans st st2 st3). }
  exists st'. split; [assumption|].
  destruct Hr as (Hsubs & Htchs & Hts & Hsame & Hone).
  split; [assumption|]. split.
  - intros H1. specialize (Hone H1). destruct st, st'; simpl in *. congruence.
  - assert (forall X, holds (schedule st) X S -> holds (schedule st') X S) as Hkeep.
    { intros X. unfold holds. apply Permutation_in. now apply same_slots_get_list. }
    destruct (teacher_records_both A B S (visits (schedule st') subs) [] Hab)
      as [HrecA HrecB].
    { apply visits_In. auto. }
    { apply visits_In. auto. }
    destruct (report_from_In (schedule st') teacher subs (teachers st') (A, S))
      as (records & Hget & HinA); [congruence | assumption |].
    destruct (report_from_In (schedule st') teacher subs (teachers st') (B, S))
      as (records' & Hget' & HinB); [congruence | assumption |].
    exists (conflicts_of (teachers st') (schedule st')), records.
    split; [apply find_teacher_conflicts_run|].
    rewrite conflicts_of_report. split; [assumption|]. split; [assumption|].
    congruence.
Qed.

Lemma resolve_teacher_conflicts_saturated_witness :
  resolve_teacher_conflicts no_room = Ok (tt, no_room) /\
  exists records,
    dict_get "T" (conflicts_of (teachers no_room) (schedule no_room)) = Some records /\
    In ("A", mon9) records /\ In ("B", mon9) records.
Proof.
  destruct (resolve_teacher_conflicts_saturated no_room "T" ["A"; "B"] "A" "B" mon9)
    as (st' & Hrun & _ & Hsame & report & records & Hrep & Hget & HA & HB).
  - repeat constructor; simpl; intuition discriminate.
  - intros slot [<-|[<-|[]]]; exists "A", [mon9]; simpl; auto.
  - now left.
  - now left.
  - right. now left.
  - discriminate.
  - now left.
  - now left.
  - assert (st' = no_room) as ->.
    { apply Hsame. unfold at_most_one_slot.
      repeat (constructor; [simpl; lia|]). constructor. }
    split; [exact Hrun|]. rewrite find_teacher_conflicts_run in Hrep.
    injection Hrep as <-. eauto.
Defined.

(** ** Resolution of a single conflict *)

Lemma report_from_nil sched tchs : forall tc,
  (forall teacher subs, In (teacher, subs) tchs ->
                        teacher_records [] (visits sched subs) = []) ->
  report_from sched tchs tc = tc.
Proof.
  unfold report_from.
  induction tchs as [|[teacher subs] rest IH]; intros tc Hall; simpl; [reflexivity|].
  rewrite (Hall teacher subs) by now left. simpl.
  apply IH. intros teacher' subs' Hin. apply (Hall teacher'). now right.
Qed.

(** When the report is one pair under one teacher, each entry of [teachers]
    yields no record or that pair. *)
Lemma report_single sched tchs teacher r1 r2 :
  report_from sched tchs [] = [(teacher, [r1; r2])] ->
  forall teacher' subs,
    In (teacher', subs) tchs ->
    teacher_records [] (visits sched subs) = [] \/
    teacher_records [] (visits sched subs) = [r1; r2].
Proof.
  intros Hrep teacher' subs Hin.
  pose proof (report_from_get sched teacher' tchs []) as Hget.
  rewrite Hrep in Hget. simpl in Hget.
  destruct (records_under_In sched _ _ _ Hin) as (pre & post & Hunder).
  destruct (teacher_records_two (visits sched subs) []) as [Hnil|Hlen]; [now left|].
  right. rewrite Hunder in Hget.
  destruct (String.eqb teacher teacher').
  - destruct (pre ++ teacher_records [] (visits sched subs) ++ post) as [|r rs] eqn:E;
      [discriminate|].
    injection Hget as <- <-.
    apply (f_equal (@length _)) in E as Hl. rewrite !length_app in Hl. simpl in Hl.
    destruct pre; [|simpl in Hl; lia].
    destruct post; [|simpl in Hl; lia].
    simpl in E. now rewrite app_nil_r in E.
  - destruct (pre ++ teacher_records [] (visits sched subs) ++ post) as [|r rs] eqn:E;
      [|discriminate].
    apply (f_equal (@length _)) in E. rewrite !length_app in E. simpl in E. lia.
Qed.

Lemma claims_after_from slot claimer vs : forall occ,
  dict_get slot (claims_after occ vs) = Some claimer ->
  dict_get slot occ = Some claimer \/ In (claimer, slot) vs.
Proof.
  induction vs as [|[subject slot'] rest IH]; intros occ Hget; simpl in *; [now left|].
  destruct (dict_get slot' occ) eqn:E.
  - destruct (IH occ Hget); [now left | right; now right].
  - destruct (IH _ Hget) as [Hset|Hin]; [|right; now right].
    destruct (py_eqb_spec (A := string * string) slot slot') as [->|Hne].
    + rewrite dict_get_set_same in Hset. injection Hset as ->. right. now left.
    + left. now rewrite dict_get_set_other in Hset.
Qed.

Lemma claims_after_seen v vs : forall occ,
  In v vs -> dict_get (snd v) (claims_after occ vs) <> None.
Proof.
  induction vs as [|[subject slot] rest IH]; intros occ Hin; simpl; [destruct Hin|].
  destruct Hin as [<-|Hin]; simpl.
  - destruct (dict_get slot occ) eqn:E.
    + rewrite (claims_after_keeps slot s rest occ E). discriminate.
    + rewrite (claims_after_keeps slot subject rest); [discriminate|].
      apply dict_get_set_same.
  - destruct (dict_get slot occ); now apply IH.
Qed.

(** The shape of a visit list that yields exactly one pair of records. *)
Lemma teacher_records_single vs b a s s' : forall occ,
  teacher_records occ vs = [(b, s); (a, s')] ->
  s' = s /\
  exists vs1 vs2,
    vs = vs1 ++ (b, s) :: vs2 /\
    teacher_records occ vs1 = [] /\
    dict_get s (claims_after occ vs1) = Some a /\
    teacher_records (claims_after occ vs1) vs2 = [].
Proof.
  induction vs as [|[subject slot] rest IH]; intros occ; simpl; [discriminate|].
  destruct (dict_get slot occ) as [first|] eqn:E.
  - intros [= -> -> -> -> Hrest]. split; [reflexivity|].
    exists [], rest. simpl. auto.
  - intros Hrec. destruct (IH _ Hrec) as (-> & vs1 & vs2 & -> & Hnil & Hget & Hnil2).
    split; [reflexivity|].
    exists ((subject, slot) :: vs1), vs2. simpl. rewrite E. auto.
Qed.

Lemma count_occ_NoDup_In (l : list TimeSlot) x :
  NoDup l -> In x l -> count_occ slot_eq_dec l x = 1.
Proof.
  intros Hnd Hin. apply (NoDup_count_occ' slot_eq_dec) in Hin; assumption.
Qed.

(** One pair of records: the slot is visited twice, by both subjects, and
    every other slot at most once. *)
Lemma single_conflict_counts sched subs a b s s' :
  teacher_records [] (visits sched subs) = [(b, s); (a, s')] ->
  holds sched a s /\ holds sched b s /\ In a subs /\ In b subs /\
  slot_count sched subs s = 2 /\
  forall t, t <> s -> slot_count sched subs t <= 1.
Proof.
  intros Hrec.
  apply teacher_records_single in Hrec as (-> & vs1 & vs2 & Hvs & Hnil1 & Hget & Hnil2).
  apply teacher_records_nil in Hnil1 as [Hnd1 _].
  apply teacher_records_nil in Hnil2 as [Hnd2 Hfresh].
  apply claims_after_from in Hget as Hina. destruct Hina as [Hina|Hina]; [discriminate|].
  assert (In (a, s) (visits sched subs)) as Ha
      by (rewrite Hvs, in_app_iff; now left).
  assert (In (b, s) (visits sched subs)) as Hb
      by (rewrite Hvs, in_app_iff; right; now left).
  apply visits_In in Ha as [Ha1 Ha2]. apply visits_In in Hb as [Hb1 Hb2].
  assert (In s (map snd vs1)) as Hs1.
  { change s with (snd (a, s)). now apply in_map. }
  assert (forall t, In t (map snd vs2) -> ~ In t (map snd vs1) /\ t <> s) as Hsep.
  { intros t Hin2. apply in_map_iff in Hin2 as (v & <- & Hv).
    specialize (Hfresh v Hv). split.
    - intros Hin1. apply in_map_iff in Hin1 as (w & Hw & Hin1).
      apply (claims_after_seen w vs1 []) in Hin1. rewrite Hw in Hin1. congruence.
    - intros Heq. rewrite Heq in Hfresh. congruence. }
  unfold slot_count. rewrite <- visits_slots, Hvs, map_app. simpl.
  repeat split; try assumption.
  - rewrite count_occ_app. simpl.
    destruct (slot_eq_dec s s) as [_|Hne]; [|congruence].
    rewrite (count_occ_NoDup_In _ _ Hnd1 Hs1).
    assert (count_occ slot_eq_dec (map snd vs2) s = 0) as ->; [|reflexivity].
    apply count_occ_not_In. intros Hin. now destruct (Hsep s Hin).
  - intros t Hts. rewrite count_occ_app. simpl.
    destruct (slot_eq_dec s t) as [Heq|_]; [congruence|].
    rewrite <- count_occ_app. apply NoDup_count_occ.
    apply NoDup_app; try assumption.
    intros x Hx1 Hx2. now destruct (Hsep x Hx2).
Qed.

Lemma teacher_slots_cons sched subject subs :
  teacher_slots sched (subject :: subs) =
  dict_get_list subject sched ++ teacher_slots sched subs.
Proof. reflexivity. Qed.

(** What moving one subject from [S] to a slot nobody holds does to the
    counts of a teacher's list. *)
Lemma relocate_counts sched X S F lx lx' subs :
  dict_get X sched = Some lx ->
  list_remove S lx = Some lx' ->
  (forall subject, ~ holds sched subject F) ->
  slot_count (dict_set X (lx' ++ [F]) sched) subs S + count_occ string_dec subs X =
    slot_count sched subs S /\
  slot_count (dict_set X (lx' ++ [F]) sched) subs F = count_occ string_dec subs X /\
  (forall t, t <> S -> t <> F ->
             slot_count (dict_set X (lx' ++ [F]) sched) subs t = slot_count sched subs t).
Proof.
  intros Hget Hrem Hfree.
  apply list_remove_perm in Hrem.
  assert (forall t, count_occ slot_eq_dec lx t = count_occ slot_eq_dec (S :: lx') t) as Hcount.
  { now apply (Permutation_count_occ slot_eq_dec). }
  assert (forall subject, count_occ slot_eq_dec (dict_get_list subject sched) F = 0) as HF.
  { intros subject. apply count_occ_not_In. apply Hfree. }
  assert (dict_get_list X sched = lx) as HX by (unfold dict_get_list; now rewrite Hget).
  assert (F <> S) as HFS.
  { intros ->. apply (Hfree X). unfold holds. rewrite HX.
    apply (Permutation_in _ (Permutation_sym Hrem)). now left. }
  unfold slot_count.
  induction subs as [|x r (IH1 & IH2 & IH3)]; [simpl; auto|].
  rewrite !teacher_slots_cons.
  assert (forall t,
             count_occ slot_eq_dec (dict_get_list x (dict_set X (lx' ++ [F]) sched)) t =
             if string_dec x X
             then count_occ slot_eq_dec lx' t + (if slot_eq_dec F t then 1 else 0)
             else count_occ slot_eq_dec (dict_get_list x sched) t) as Hx.
  { intros t. destruct (string_dec x X) as [->|Hne].
    - rewrite dict_get_list_set_same, count_occ_app. simpl.
      now destruct (slot_eq_dec F t).
    - now rewrite dict_get_list_set_other. }
  assert (count_occ slot_eq_dec lx' F = 0) as HF'.
  { specialize (HF X). rewrite HX, Hcount in HF. simpl in HF.
    destruct (slot_eq_dec S F); [congruence | assumption]. }
  repeat split.
  - rewrite !count_occ_app, Hx. simpl (count_occ string_dec (x :: r) X).
    destruct (string_dec x X) as [->|Hne].
    + rewrite HX, Hcount. simpl.
      destruct (slot_eq_dec S S); [|congruence].
      destruct (slot_eq_dec F S); [congruence|]. lia.
    + lia.
  - rewrite !count_occ_app, Hx. simpl (count_occ string_dec (x :: r) X).
    destruct (string_dec x X) as [->|Hne].
    + rewrite HF'. destruct (slot_eq_dec F F); [|congruence]. lia.
    + rewrite HF. lia.
  - intros t HtS HtF. rewrite !count_occ_app, Hx, (IH3 t HtS HtF).
    destruct (string_dec x X) as [->|Hne]; [|reflexivity].
    rewrite HX, Hcount. simpl.
    destruct (slot_eq_dec S t); [congruence|].
    destruct (slot_eq_dec F t); [congruence|]. lia.
Qed.

Lemma find_free st F :
  In F (time_slots st) ->
  ~ slot_occupied (schedule st) F ->
  exists alt,
    find (fun slot => negb (list_mem slot (occupied (schedule st)))) (time_slots st) =
      Some alt /\
    ~ slot_occupied (schedule st) alt.
Proof.
  intros Hin Hfree.
  destruct (find _ (time_slots st)) as [alt|] eqn:E.
  - exists alt. split; [reflexivity|]. apply find_some in E as [_ E]. now apply free_test.
  - exfalso. apply (find_none _ _ E) in Hin. apply free_test in Hfree. congruence.
Qed.

Lemma resolve_conflict_relocate st subject time_slot alt slots slots' :
  find (fun slot => negb (list_mem slot (occupied (schedule st)))) (time_slots st) =
    Some alt ->
  dict_get subject (schedule st) = Some slots ->
  list_remove time_slot slots = Some slots' ->
  resolve_conflict (subject, time_slot) st =
  Ok (tt, with_schedule st (dict_set subject (slots' ++ [alt]) (schedule st))).
Proof.
  intros Hfind Hget Hrem. unfold resolve_conflict. unfold bind at 1.
  rewrite find_alternative_slot_run, Hfind, relocate_run, Hget, Hrem. reflexivity.
Qed.

Lemma records_under_entry sched teacher tchs :
  records_under sched teacher tchs <> [] ->
  exists subs, In (teacher, subs) tchs /\ teacher_records [] (visits sched subs) <> [].
Proof.
  induction tchs as [|[teacher' subs'] rest IH]; simpl; [congruence|].
  destruct (String.eqb_spec teacher' teacher) as [->|Hne].
  - destruct (teacher_records [] (visits sched subs')) eqn:E.
    + simpl. intros H. destruct (IH H) as (subs & Hin & Hrec). eauto.
    + intros _. exists subs'. split; [now left|]. now rewrite E.
  - simpl. intros H. destruct (IH H) as (subs & Hin & Hrec). eauto.
Qed.

Lemma free_after_set sched subject slots slots' alt G :
  dict_get subject sched = Some slots ->
  (forall x, In x slots' -> In x slots) ->
  G <> alt ->
  ~ slot_occupied sched G ->
  ~ slot_occupied (dict_set subject (slots' ++ [alt]) sched) G.
Proof.
  intros Hget Hsub Hne Hfree (k & l & Hin & HG).
  apply In_dict_set in Hin as [[-> ->]|Hin].
  - apply in_app_iff in HG as [HG|[HG|[]]]; [|congruence].
    apply Hfree. exists subject, slots. split; [now apply dict_get_In | auto].
  - apply Hfree. now exists k, l.
Qed.

Lemma resolve_pair_run (teacher : Teacher) r1 r2 st :
  for_each [(teacher, [r1; r2])]
    (fun '(teacher, sub_time_pairs) => for_each sub_time_pairs resolve_conflict) st =
  match resolve_conflict r1 st with
  | Ok (_, st1) =>
      match resolve_conflict r2 st1 with
      | Ok (_, st2) => Ok (tt, st2)
      | Raise e => Raise e
      end
  | Raise e => Raise e
  end.
Proof.
  cbn [for_each]. unfold bind, ret.
  destruct (resolve_conflict r1 st) as [[[] st1]|]; [|reflexivity].
  destruct (resolve_conflict r2 st1) as [[[] st2]|]; reflexivity.
Qed.

(** When the conflict report is one pair -- subjects [A] and [B],
    different, of one teacher on the slot [S] -- and two different time slots
    are in no subject's list, [resolve_teacher_conflicts] returns and the
    report of [find_teacher_conflicts] on the result is empty.  The report
    is one pair only if the teacher lists neither subject twice. *)
Theorem resolve_teacher_conflicts_single
    (st : Scheduler) (teacher : Teacher) (A B : Subject) (S F1 F2 : TimeSlot) :
  find_teacher_conflicts st = Ok ([(teacher, [(B, S); (A, S)])], st) ->
  A <> B ->
  In F1 (time_slots st) -> In F2 (time_slots st) -> F1 <> F2 ->
  ~ slot_occupied (schedule st) F1 ->
  ~ slot_occupied (schedule st) F2 ->
  exists st',
    resolve_teacher_conflicts st = Ok (tt, st') /\
    find_teacher_conflicts st' = Ok ([], st').
Proof.
  intros Hrep Hab HF1 HF2 HF12 Hfree1 Hfree2.
  rewrite find_teacher_conflicts_run in Hrep. injection Hrep as Hrep.
  pose proof Hrep as Hrep'. rewrite conflicts_of_report in Hrep'.
  pose proof (report_single _ _ _ _ _ Hrep') as Hentries.
  (* the entry of [teachers] with the conflict *)
  assert (exists subs0, In (teacher, subs0) (teachers st) /\
            teacher_records [] (visits (schedule st) subs0) = [(B, S); (A, S)])
    as (subs0 & Hin0 & Hrec0).
  { destruct (records_under_entry (schedule st) teacher (teachers st))
      as (subs0 & Hin0 & Hne0).
    - pose proof (report_from_get (schedule st) teacher (teachers st) []) as Hget.
      rewrite Hrep' in Hget. simpl in Hget. rewrite String.eqb_refl in Hget.
      intros E. rewrite E in Hget. discriminate.
    - exists subs0. split; [assumption|].
      destruct (Hentries _ _ Hin0); [congruence | assumption]. }
  destruct (single_conflict_counts _ _ _ _ _ _ Hrec0) as (HhA & HhB & _).
  apply holds_get_list in HhA as (la & HgetA & HinA).
  apply holds_get_list in HhB as (lb & HgetB & HinB).
  destruct (list_remove_Some _ _ HinA) as [la' HremA].
  destruct (list_remove_Some _ _ HinB) as [lb' HremB].
  (* first record: [B] moves *)
  destruct (find_free st F1 HF1 Hfree1) as (alt1 & Hfind1 & Halt1).
  set (sched1 := dict_set B (lb' ++ [alt1]) (schedule st)).
  set (st1 := with_schedule st sched1).
  pose proof (resolve_conflict_relocate st B S alt1 lb lb' Hfind1 HgetB HremB) as Hstep1.
  fold sched1 in Hstep1. fold st1 in Hstep1.
  (* second record: [A] moves *)
  assert (exists G, In G (time_slots st1) /\ ~ slot_occupied (schedule st1) G)
    as (G & HG & HGfree).
  { assert (forall x, In x lb' -> In x lb) as Hsub.
    { intros x Hx. apply (Permutation_in _ (Permutation_sym (list_remove_perm _ _ _ HremB))).
      now right. }
    destruct (slot_eq_dec F1 alt1) as [E|Hne].
    - exists F2. split; [assumption|].
      apply (free_after_set _ _ lb); try assumption. congruence.
    - exists F1. split; [assumption|].
      now apply (free_after_set _ _ lb). }
  destruct (find_free st1 G HG HGfree) as (alt2 & Hfind2 & Halt2).
  assert (dict_get A (schedule st1) = Some la) as HgetA1.
  { simpl. unfold sched1. now rewrite dict_get_set_other. }
  set (sched2 := dict_set A (la' ++ [alt2]) sched1).
  pose proof (resolve_conflict_relocate st1 A S alt2 la la' Hfind2 HgetA1 HremA) as Hstep2.
  exists (with_schedule st1 sched2). split.
  - unfold resolve_teacher_conflicts. unfold bind at 1.
    rewrite find_teacher_conflicts_run, Hrep, resolve_pair_run, Hstep1, Hstep2.
    reflexivity.
  - rewrite find_teacher_conflicts_run, conflicts_of_report.
    rewrite report_from_nil; [reflexivity|].
    intros teacher' subs Hin. simpl in Hin |- *.
    apply teacher_records_nil. rewrite visits_slots. split; [|reflexivity].
    apply (NoDup_count_occ slot_eq_dec). intros t.
    destruct (relocate_counts (schedule st) B S alt1 lb lb' subs HgetB HremB)
      as (R1S & R1F & R1o).
    { intros subject Hh. apply Halt1. now apply (holds_occupied _ subject). }
    destruct (relocate_counts sched1 A S alt2 la la' subs HgetA1 HremA)
      as (R2S & R2F & R2o).
    { intros subject Hh. apply Halt2. now apply (holds_occupied _ subject). }
    fold sched1 in R1S, R1F, R1o. fold sched2 in R2S, R2F, R2o.
    fold (slot_count sched2 subs t).
    assert ((forall u, slot_count (schedule st) subs u <= 1) \/
            (slot_count (schedule st) subs S = 2 /\
             (forall u, u <> S -> slot_count (schedule st) subs u <= 1) /\
             1 <= count_occ string_dec subs A /\
             1 <= count_occ string_dec subs B)) as Hbefore.
    { destruct (Hentries _ _ Hin) as [Hnil|Hpair].
      - left. apply teacher_records_nil in Hnil as [Hnd _].
        rewrite visits_slots in Hnd. intros u.
        now apply (NoDup_count_occ slot_eq_dec).
      - right. destruct (single_conflict_counts _ _ _ _ _ _ Hpair)
          as (_ & _ & HinA' & HinB' & H2 & Hother).
        repeat split; try assumption; now apply count_occ_In. }
    destruct (slot_eq_dec t alt2) as [->|Ht2].
    { destruct Hbefore as [Hle|(H2 & _ & HA1 & HB1)]; [specialize (Hle S)|]; lia. }
    destruct (slot_eq_dec t S) as [->|HtS].
    { destruct Hbefore as [Hle|(H2 & _ & HA1 & HB1)]; [specialize (Hle S)|]; lia. }
    rewrite (R2o t HtS Ht2).
    destruct (slot_eq_dec t alt1) as [->|Ht1].
    { destruct Hbefore as [Hle|(H2 & _ & HA1 & HB1)]; [specialize (Hle S)|]; lia. }
    rewrite (R1o t HtS Ht1).
    destruct Hbefore as [Hle|(_ & Hother & _)]; auto.
Qed.

Lemma resolve_teacher_conflicts_single_witness :
  exists st',
    resolve_teacher_conflicts room_for_two = Ok (tt, st') /\
    find_teacher_conflicts st' = Ok ([], st').
Proof.
  apply (resolve_teacher_conflicts_single room_for_two "T" "A" "B" mon9 mon11 mon12).
  - reflexivity.
  - discriminate.
  - simpl. tauto.
  - simpl. tauto.
  - discriminate.
  - intros (k & l & Hin & Hl). simpl in Hin.
    destruct Hin as [[= <- <-]|[[= <- <-]|[[= <- <-]|[]]]];
      destruct Hl as [Hl|[]]; discriminate Hl.
  - intros (k & l & Hin & Hl). simpl in Hin.
    destruct Hin as [[= <- <-]|[[= <- <-]|[[= <- <-]|[]]]];
      destruct Hl as [Hl|[]]; discriminate Hl.
Defined.

(** C5: two different subjects [A] and [B] of the teacher [T] share the slot
    9AM, no other two subjects share a slot, and the slots 10AM and 11AM are
    in no subject's list; but [T] lists [B] twice.  On this state, which
    [initialize_schedule] reaches, [resolve_teacher_conflicts] does not
    resolve the conflict: it raises [ValueError].  The report has the pair
    twice; after [B] and [A] have moved, the third record gets the vacated
    9AM as alternative and the relocation branch removes 9AM from the list of
    [B], where it no longer is. *)
Theorem resolve_teacher_conflicts_raises_on_listed_again :
  exists st,
    initialize_schedule listed_again = Ok (tt, st) /\
    teachers st = [("T", ["A"; "B"; "B"])] /\
    schedule st = [("A", [mon9]); ("B", [mon9])] /\
    In mon10 (time_slots st) /\ In mon11 (time_slots st) /\
    ~ slot_occupied (schedule st) mon10 /\
    ~ slot_occupied (schedule st) mon11 /\
    find_teacher_conflicts st =
      Ok ([("T", [("B", mon9); ("A", mon9); ("B", mon9); ("A", mon9)])], st) /\
    resolve_teacher_conflicts st = Raise ValueError.
Proof.
  eexists. split; [reflexivity|].
  assert (forall slot, slot <> mon9 ->
            ~ slot_occupied [("A", [mon9]); ("B", [mon9])] slot) as Hfree.
  { intros slot Hne (k & l & Hin & Hl).
    destruct Hin as [[= <- <-]|[[= <- <-]|[]]]; destruct Hl as [Hl|[]]; congruence. }
  repeat split.
  - simpl. tauto.
  - simpl. tauto.
  - apply Hfree. discriminate.
  - apply Hfree. discriminate.
Qed.

(** ** The situations behind the hypotheses *)

(** The distinct keys asked of a schedule are what the methods maintain. *)
Lemma dict_set_NoDup {K V} `{PyEq K} (k : K) (v : V) d :
  NoDup (dict_keys d) -> NoDup (dict_keys (dict_set k v d)).
Proof.
  intros Hnd. destruct (list_mem k (dict_keys d)) eqn:E.
  - apply list_mem_In in E. now rewrite dict_keys_set_In.
  - apply list_mem_false in E. rewrite dict_keys_set_new by assumption.
    apply NoDup_app; [assumption | repeat constructor; intros [] |].
    intros x Hx [<-|[]]. contradiction.
Qed.

Lemma initialize_loop_NoDup subs : forall avail sched,
  NoDup (dict_keys sched) -> NoDup (dict_keys (initialize_loop subs avail sched)).
Proof.
  induction subs as [|s others IH]; intros avail sched Hnd; simpl; [assumption|].
  destruct avail as [|c rest]; apply IH; now apply dict_set_NoDup.
Qed.

Lemma finalize_loop_NoDup order subs : forall avail sched,
  NoDup (dict_keys sched) -> NoDup (dict_keys (finalize_loop order subs avail sched)).
Proof.
  induction subs as [|s others IH]; intros avail sched Hnd; simpl; [assumption|].
  destruct (set_first order avail); apply IH; [now apply dict_set_NoDup | assumption].
Qed.

Lemma NoDup_app_disjoint {A} (l1 l2 : list A) :
  NoDup (l1 ++ l2) -> forall x, In x l1 -> ~ In x l2.
Proof.
  induction l1 as [|y r IH]; simpl; [tauto|].
  intros Hnd x [<-|Hin] Hin2.
  - inversion Hnd as [|? ? Hni _]; subst. apply Hni, in_app_iff. now right.
  - inversion Hnd; subst. now apply (IH H2 x).
Qed.

(** Visits with one slot met twice and every other slot once give one pair
    of records. *)
Lemma teacher_records_exact first later slot vs1 vs2 vs3 :
  NoDup (map snd (vs1 ++ (first, slot) :: vs2 ++ vs3)) ->
  teacher_records [] (vs1 ++ (first, slot) :: vs2 ++ (later, slot) :: vs3) =
  [(later, slot); (first, slot)].
Proof.
  rewrite map_app. simpl. rewrite map_app. intros Hnd.
  apply NoDup_remove in Hnd as [Hnd Hslot].
  rewrite in_app_iff in Hslot.
  pose proof (NoDup_app_remove_r _ _ Hnd) as Hnd1.
  pose proof (NoDup_app_remove_l _ _ Hnd) as Hnd23.
  pose proof (NoDup_app_remove_r _ _ Hnd23) as Hnd2.
  pose proof (NoDup_app_remove_l _ _ Hnd23) as Hnd3.
  assert (forall t, In t (map snd vs2 ++ map snd vs3) -> ~ In t (map snd vs1)) as Hsep1.
  { intros t Ht Ht1. revert Ht. apply (NoDup_app_disjoint _ _ Hnd _ Ht1). }
  assert (forall t, In t (map snd vs3) -> ~ In t (map snd vs2)) as Hsep2.
  { intros t Ht Ht2. revert Ht. apply (NoDup_app_disjoint _ _ Hnd23 _ Ht2). }
  set (occ1 := claims_after [] vs1).
  set (occ2 := dict_set slot first occ1).
  assert (dict_get slot occ1 = None) as Hfresh.
  { apply claims_after_unseen; [reflexivity|]. intros Hin. apply Hslot. now left. }
  assert (forall t, t <> slot -> ~ In t (map snd vs1) -> dict_get t occ2 = None) as Hocc2.
  { intros t Hne Hni. unfold occ2. rewrite dict_get_set_other by assumption.
    now apply claims_after_unseen. }
  rewrite teacher_records_app.
  replace (teacher_records [] vs1) with (@nil (Subject * TimeSlot)).
  2:{ symmetry. apply teacher_records_nil. split; [assumption | reflexivity]. }
  simpl. fold occ1. rewrite Hfresh. fold occ2.
  rewrite teacher_records_app.
  replace (teacher_records occ2 vs2) with (@nil (Subject * TimeSlot)).
  2:{ symmetry. apply teacher_records_nil. split; [assumption|].
      intros v Hv. assert (In (snd v) (map snd vs2)) as Hin by now apply in_map.
      apply Hocc2.
      - intros E. rewrite E in Hin. apply Hslot. right. apply in_app_iff. now left.
      - apply Hsep1. rewrite in_app_iff. now left. }
  simpl. rewrite (claims_after_keeps slot first vs2 occ2) by apply dict_get_set_same.
  replace (teacher_records (claims_after occ2 vs2) vs3) with (@nil (Subject * TimeSlot));
    [reflexivity|].
  symmetry. apply teacher_records_nil. split; [assumption|].
  intros v Hv. assert (In (snd v) (map snd vs3)) as Hin by now apply in_map.
  apply claims_after_unseen; [|now apply Hsep2].
  apply Hocc2.
  - intros E. rewrite E in Hin. apply Hslot. right. apply in_app_iff. now right.
  - apply Hsep1. rewrite in_app_iff. now right.
Qed.

(** The single conflict in the terms of the schedule: one teacher lists [A]
    before [B], both have the slot [S] alone, the slots of the other subjects
    on the list are distinct and differ from [S], and no other teacher has
    two visits of a slot.  Then the report is the single pair. *)
Lemma single_conflict_report st before_t after_t teacher before A between B after S :
  teachers st = before_t ++ (teacher, before ++ A :: between ++ B :: after) :: after_t ->
  dict_get_list A (schedule st) = [S] ->
  dict_get_list B (schedule st) = [S] ->
  NoDup (S :: teacher_slots (schedule st) (before ++ between ++ after)) ->
  (forall teacher' subs, In (teacher', subs) (before_t ++ after_t) ->
                         NoDup (teacher_slots (schedule st) subs)) ->
  find_teacher_conflicts st = Ok ([(teacher, [(B, S); (A, S)])], st).
Proof.
  intros Htchs HA HB Hnd Hothers.
  rewrite find_teacher_conflicts_run, conflicts_of_report, Htchs.
  assert (forall tchs tc,
             (forall teacher' subs, In (teacher', subs) tchs ->
                                    In (teacher', subs) (before_t ++ after_t)) ->
             report_from (schedule st) tchs tc = tc) as Hquiet.
  { intros tchs tc Hsub. apply report_from_nil. intros teacher' subs Hin.
    apply teacher_records_nil. rewrite visits_slots.
    split; [|reflexivity]. apply (Hothers teacher'). now apply Hsub. }
  unfold report_from. rewrite fold_left_app. cbn [fold_left].
  fold (report_from (schedule st) before_t []).
  rewrite Hquiet by (intros ? ? ?; apply in_app_iff; now left).
  replace (teacher_records [] (visits (schedule st) (before ++ A :: between ++ B :: after)))
    with [(B, S); (A, S)].
  - assert (record_all teacher [(B, S); (A, S)] [] = [(teacher, [(B, S); (A, S)])]) as ->.
    { unfold record_all, conflicts_append, dict_get_list. simpl.
      now rewrite !String.eqb_refl. }
    fold (report_from (schedule st) after_t [(teacher, [(B, S); (A, S)])]).
    rewrite Hquiet by (intros ? ? ?; apply in_app_iff; now right). reflexivity.
  - symmetry.
    assert (visits (schedule st) (before ++ A :: between ++ B :: after) =
            visits (schedule st) before ++ (A, S)
              :: visits (schedule st) between ++ (B, S) :: visits (schedule st) after)
      as ->.
    { change (A :: between ++ B :: after) with ([A] ++ between ++ [B] ++ after).
      rewrite !visits_app. unfold visits at 2 4. simpl. now rewrite HA, HB. }
    apply teacher_records_exact.
    rewrite map_app. simpl. rewrite map_app, !visits_slots.
    apply (Permutation_NoDup (l := S :: teacher_slots (schedule st) (before ++ between ++ after)));
      [|assumption].
    unfold teacher_slots. rewrite !flat_map_app.
    apply Permutation_middle.
Qed.

(** * Further properties of the methods *)

(** ** What a report says *)

Lemma records_under_source sched teacher tchs record :
  In record (records_under sched teacher tchs) ->
  exists subs, In (teacher, subs) tchs /\
               In record (teacher_records [] (visits sched subs)).
Proof.
  induction tchs as [|[teacher' subs'] rest IH]; simpl; [tauto|].
  rewrite in_app_iff. intros [Hin|Hin].
  - destruct (String.eqb_spec teacher' teacher) as [->|Hne]; [|destruct Hin].
    exists subs'. split; [now left | assumption].
  - destruct (IH Hin) as (subs & Hin' & Hrec). exists subs. split; [now right | assumption].
Qed.

Lemma report_from_entry sched teacher tchs records :
  dict_get teacher (report_from sched tchs []) = Some records ->
  records = records_under sched teacher tchs.
Proof.
  rewrite report_from_get.
  destruct (records_under sched teacher tchs); simpl; [discriminate | now intros [= <-]].
Qed.

(** A record names a visit, or the claimer known before the visits; and
    its slot is met twice, counting a claim made before the visits. *)
Lemma teacher_records_sound vs : forall occ subject slot,
  In (subject, slot) (teacher_records occ vs) ->
  (In (subject, slot) vs \/ dict_get slot occ = Some subject) /\
  ((dict_get slot occ <> None /\ 1 <= count_occ slot_eq_dec (map snd vs) slot) \/
   2 <= count_occ slot_eq_dec (map snd vs) slot).
Proof.
  induction vs as [|[x0 s0] rest IH]; intros occ subject slot; simpl; [tauto|].
  destruct (dict_get s0 occ) as [first|] eqn:E.
  - intros [[= -> ->]|[[= -> ->]|Hin]].
    + split; [left; now left|]. left. rewrite E.
      destruct (slot_eq_dec slot slot); [split; [discriminate | lia] | congruence].
    + split; [now right|]. left. rewrite E.
      destruct (slot_eq_dec slot slot); [split; [discriminate | lia] | congruence].
    + destruct (IH occ subject slot Hin) as [Hsrc Hcnt]. split; [tauto|].
      destruct (slot_eq_dec s0 slot); [|assumption].
      destruct Hcnt as [[Hocc Hc]|Hc]; [left; split; [assumption | lia] | right; lia].
  - intros Hin. destruct (IH _ subject slot Hin) as [Hsrc Hcnt]. clear IH.
    destruct (slot_eq_dec s0 slot) as [->|Hne].
    + rewrite dict_get_set_same in Hsrc. split.
      * left. destruct Hsrc as [Hsrc|[= ->]]; [now right | now left].
      * right. destruct Hcnt as [[_ Hc]|Hc]; lia.
    + rewrite dict_get_set_other in Hsrc, Hcnt by congruence.
      split; [tauto | assumption].
Qed.

(** X1: every record of the report is genuine: if [(subject, slot)] is
    recorded under a teacher, that teacher lists the subject, the subject
    holds the slot, and the teacher's list leads to the slot at least twice. *)
Theorem find_teacher_conflicts_sound (st : Scheduler) :
  exists report,
    find_teacher_conflicts st = Ok (report, st) /\
    forall teacher records subject slot,
      dict_get teacher report = Some records ->
      In (subject, slot) records ->
      exists subs,
        In (teacher, subs) (teachers st) /\
        In subject subs /\
        holds (schedule st) subject slot /\
        2 <= slot_count (schedule st) subs slot.
Proof.
  eexists. split; [apply find_teacher_conflicts_run|].
  rewrite conflicts_of_report.
  intros teacher records subject slot Hget Hin.
  apply report_from_entry in Hget. subst records.
  apply records_under_source in Hin as (subs & Hsubs & Hrec).
  exists subs. split; [assumption|].
  apply teacher_records_sound in Hrec as [[Hvisit|Hocc] Hcnt]; [|discriminate].
  apply visits_In in Hvisit as [Hs Hh]. repeat split; try assumption.
  unfold slot_count. rewrite <- visits_slots.
  destruct Hcnt as [[Hocc _]|Hc]; [now elim Hocc | assumption].
Qed.

Lemma find_teacher_conflicts_sound_witness :
  holds (schedule two_share) "A" mon9 /\
  2 <= slot_count (schedule two_share) ["A"; "B"] mon9.
Proof.
  destruct (find_teacher_conflicts_sound two_share) as (report & Hrun & Hsound).
  rewrite find_teacher_conflicts_run in Hrun. injection Hrun as <-.
  destruct (Hsound "T" [("B", mon9); ("A", mon9)] "A" mon9)
    as (subs & Hsubs & _ & Hh & Hc).
  - reflexivity.
  - right. now left.
  - destruct Hsubs as [[= <-]|[]]. now split.
Defined.

Lemma report_from_empty sched tchs :
  report_from sched tchs [] = [] <->
  forall teacher subs, In (teacher, subs) tchs ->
                       teacher_records [] (visits sched subs) = [].
Proof.
  split.
  - intros Hrep teacher subs Hin.
    pose proof (report_from_get sched teacher tchs []) as Hget.
    rewrite Hrep in Hget. simpl in Hget.
    destruct (records_under_In sched _ _ _ Hin) as (pre & post & Hunder).
    rewrite Hunder in Hget.
    destruct (teacher_records [] (visits sched subs)) as [|r rs]; [reflexivity|].
    destruct pre; discriminate Hget.
  - intros Hall. now apply report_from_nil.
Qed.

Lemma conflict_free_iff (st : Scheduler) :
  find_teacher_conflicts st = Ok ([], st) <->
  forall teacher subs, In (teacher, subs) (teachers st) ->
                       NoDup (teacher_slots (schedule st) subs).
Proof.
  rewrite find_teacher_conflicts_run, conflicts_of_report.
  assert ((forall teacher subs, In (teacher, subs) (teachers st) ->
              teacher_records [] (visits (schedule st) subs) = []) <->
          (forall teacher subs, In (teacher, subs) (teachers st) ->
              NoDup (teacher_slots (schedule st) subs))) as Hiff.
  { split; intros Hall teacher subs Hin; specialize (Hall teacher subs Hin).
    - apply teacher_records_nil in Hall as [Hnd _]. now rewrite visits_slots in Hnd.
    - apply teacher_records_nil. rewrite visits_slots. now split. }
  rewrite <- Hiff, <- report_from_empty. split.
  - now intros [= ->].
  - now intros ->.
Qed.

(** X2: the report is empty exactly when no teacher's subject list leads to
    a slot twice (repeated entries of the list and repeated slots of a
    subject counted separately). *)
Theorem find_teacher_conflicts_empty_iff (st : Scheduler) :
  find_teacher_conflicts st = Ok ([], st) <->
  forall teacher subs, In (teacher, subs) (teachers st) ->
                       NoDup (teacher_slots (schedule st) subs).
Proof. apply conflict_free_iff. Qed.

Lemma resolve_idle (st : Scheduler) :
  (forall teacher subs, In (teacher, subs) (teachers st) ->
                        NoDup (teacher_slots (schedule st) subs)) ->
  resolve_teacher_conflicts st = Ok (tt, st).
Proof.
  intros Hall. apply conflict_free_iff in Hall.
  unfold resolve_teacher_conflicts, bind. now rewrite Hall.
Qed.

(** X3: when no teacher's subject list leads to a slot twice,
    [resolve_teacher_conflicts] returns and leaves the object as it was. *)
Theorem resolve_teacher_conflicts_nothing_to_do (st : Scheduler) :
  (forall teacher subs, In (teacher, subs) (teachers st) ->
                        NoDup (teacher_slots (schedule st) subs)) ->
  resolve_teacher_conflicts st = Ok (tt, st).
Proof.
  apply resolve_idle.
Qed.

Lemma resolve_teacher_conflicts_nothing_to_do_witness :
  resolve_teacher_conflicts late_subject = Ok (tt, late_subject).
Proof.
  apply resolve_teacher_conflicts_nothing_to_do.
  intros teacher subs [[= <- <-]|[]]. simpl.
  repeat constructor. intros [].
Defined.

(** ** What resolution keeps *)

Lemma same_shape_refl sched : same_shape sched sched.
Proof. unfold same_shape. induction sched; constructor; auto. Qed.

Lemma same_shape_trans s1 s2 s3 :
  same_shape s1 s2 -> same_shape s2 s3 -> same_shape s1 s3.
Proof.
  unfold same_shape. intros H12. revert s3.
  induction H12 as [|e1 e2 r1 r2 [Hk Hl] _ IH]; intros s3 H23; inversion H23; subst.
  - constructor.
  - constructor; [|now apply IH].
    destruct H1 as [Hk' Hl']. split; congruence.
Qed.

Lemma same_shape_keys s1 s2 : same_shape s1 s2 -> dict_keys s2 = dict_keys s1.
Proof.
  unfold same_shape, dict_keys.
  induction 1 as [|e1 e2 r1 r2 [Hk Hl] _ IH]; simpl; congruence.
Qed.

Lemma same_shape_set subject slots slots' sched :
  dict_get subject sched = Some slots ->
  length slots = length slots' ->
  same_shape sched (dict_set subject slots' sched).
Proof.
  unfold same_shape. intros Hget Hlen.
  induction sched as [|[k l] r IH]; simpl in *; [discriminate|].
  destruct (String.eqb k subject).
  - injection Hget as ->. constructor; [now split | apply same_shape_refl].
  - constructor; [now split | now apply IH].
Qed.

Lemma move_same_shape subject time_slot new_slot st st' :
  (schedule_remove subject time_slot ;;
   slot <- gets new_slot ;;
   schedule_append subject slot) st = Ok (tt, st') ->
  subjects st' = subjects st /\ teachers st' = teachers st /\
  time_slots st' = time_slots st /\
  same_shape (schedule st) (schedule st').
Proof.
  rewrite move_run.
  destruct (dict_get subject (schedule st)) as [slots|] eqn:Hget; [|discriminate].
  destruct (list_remove time_slot slots) as [slots'|] eqn:Hrem; [|discriminate].
  intros [= <-]. simpl. repeat split.
  apply (same_shape_set subject slots); [assumption|].
  apply list_remove_length in Hrem. rewrite length_app. simpl. lia.
Qed.

Lemma swap_loop_same_shape subject time_slot items : forall st st',
  swap_loop subject time_slot items st = Ok (tt, st') ->
  subjects st' = subjects st /\ teachers st' = teachers st /\
  time_slots st' = time_slots st /\
  same_shape (schedule st) (schedule st').
Proof.
  induction items as [|[swap_subject swap_slots] rest IH]; intros st st'; simpl.
  - intros [= <-]. repeat split. apply same_shape_refl.
  - destruct (negb (String.eqb swap_subject subject) && list_mem time_slot swap_slots).
    + rewrite swap_run. apply move_same_shape.
    + apply IH.
Qed.

Lemma resolve_conflict_same_shape record st st' :
  resolve_conflict record st = Ok (tt, st') ->
  subjects st' = subjects st /\ teachers st' = teachers st /\
  time_slots st' = time_slots st /\
  same_shape (schedule st) (schedule st').
Proof.
  destruct record as [subject time_slot].
  unfold resolve_conflict. unfold bind at 1. rewrite find_alternative_slot_run.
  destruct (find _ (time_slots st)) as [slot|].
  - apply (move_same_shape subject time_slot (fun _ => slot)).
  - rewrite bind_gets. apply swap_loop_same_shape.
Qed.

(** X4: when [resolve_teacher_conflicts] returns, the subjects, teachers
    and time slots are as before, and the schedule has the same subjects in
    the same order, each with as many slots as before: resolution only
    exchanges slots, it never schedules or unschedules a subject. *)
Theorem resolve_teacher_conflicts_same_shape (st st' : Scheduler) :
  resolve_teacher_conflicts st = Ok (tt, st') ->
  subjects st' = subjects st /\ teachers st' = teachers st /\
  time_slots st' = time_slots st /\
  same_shape (schedule st) (schedule st').
Proof.
  unfold resolve_teacher_conflicts. unfold bind at 1.
  rewrite find_teacher_conflicts_run.
  set (P := fun st1 =>
              subjects st1 = subjects st /\ teachers st1 = teachers st /\
              time_slots st1 = time_slots st /\
              same_shape (schedule st) (schedule st1)).
  assert (forall record st1 st2,
             P st1 -> resolve_conflict record st1 = Ok (tt, st2) -> P st2) as Hstep.
  { intros record st1 st2 (H1 & H2 & H3 & H4) Hrun.
    apply resolve_conflict_same_shape in Hrun as (H1' & H2' & H3' & H4').
    unfold P. repeat split; try congruence.
    now apply (same_shape_trans _ (schedule st1)). }
  apply (for_each_preserves P).
  - intros [teacher sub_time_pairs]. now apply (for_each_preserves P).
  - unfold P. repeat split. apply same_shape_refl.
Qed.

Lemma resolve_teacher_conflicts_same_shape_witness :
  exists st',
    resolve_teacher_conflicts room_for_two = Ok (tt, st') /\
    schedule st' <> schedule room_for_two /\
    same_shape (schedule room_for_two) (schedule st').
Proof.
  eexists. split; [reflexivity|]. split; [discriminate|].
  eapply resolve_teacher_conflicts_same_shape. reflexivity.
Defined.

(** ** The only exception of resolution *)

Lemma for_each_keeps {A} (P : Scheduler -> Prop) (Q : A -> Prop) (body : A -> M unit) l :
  (forall x st st', Q x -> P st -> body x st = Ok (tt, st') -> P st') ->
  Forall Q l ->
  forall st st', P st -> for_each l body st = Ok (tt, st') -> P st'.
Proof.
  intros Hbody HQ. induction HQ as [|x r Hx _ IH]; intros st st' HP; simpl.
  - now intros [= <-].
  - unfold bind. destruct (body x st) as [[[] st1]|] eqn:E; [|discriminate].
    apply IH. now apply (Hbody x st).
Qed.

Lemma for_each_never {A} (P : Scheduler -> Prop) (Q : A -> Prop) (e : exn)
    (body : A -> M unit) l :
  (forall x st st', Q x -> P st -> body x st = Ok (tt, st') -> P st') ->
  (forall x st, Q x -> P st -> body x st <> Raise e) ->
  Forall Q l ->
  forall st, P st -> for_each l body st <> Raise e.
Proof.
  intros Hkeep Hbody HQ. induction HQ as [|x r Hx _ IH]; intros st HP; simpl.
  - discriminate.
  - unfold bind. destruct (body x st) as [[[] st1]|e'] eqn:E.
    + apply IH. now apply (Hkeep x st).
    + intros [= ->]. now apply (Hbody x st Hx HP).
Qed.

Lemma dict_get_key {K V} `{PyEq K} (k : K) (d : dict K V) :
  In k (dict_keys d) -> exists v, dict_get k d = Some v.
Proof.
  intros Hin. destruct (dict_get k d) as [v|] eqn:E; [eauto|].
  now apply dict_get_None in E.
Qed.

Lemma move_not_KeyError subject time_slot new_slot st :
  In subject (dict_keys (schedule st)) ->
  (schedule_remove subject time_slot ;;
   slot <- gets new_slot ;;
   schedule_append subject slot) st <> Raise KeyError.
Proof.
  intros Hin. rewrite move_run. destruct (dict_get_key _ _ Hin) as [slots ->].
  destruct (list_remove time_slot slots); discriminate.
Qed.

Lemma swap_loop_not_KeyError subject time_slot st items :
  (forall entry, In entry items -> In (fst entry) (dict_keys (schedule st))) ->
  swap_loop subject time_slot items st <> Raise KeyError.
Proof.
  induction items as [|[swap_subject swap_slots] rest IH]; intros Hkeys; simpl.
  - discriminate.
  - destruct (negb (String.eqb swap_subject subject) && list_mem time_slot swap_slots).
    + rewrite swap_run. apply move_not_KeyError.
      apply (Hkeys (swap_subject, swap_slots)). now left.
    + apply IH. intros entry Hin. apply Hkeys. now right.
Qed.

Lemma resolve_conflict_not_KeyError subject time_slot st :
  In subject (dict_keys (schedule st)) ->
  resolve_conflict (subject, time_slot) st <> Raise KeyError.
Proof.
  intros Hin. unfold resolve_conflict. unfold bind at 1.
  rewrite find_alternative_slot_run.
  destruct (find _ (time_slots st)) as [slot|].
  - now apply (move_not_KeyError subject time_slot (fun _ => slot)).
  - rewrite bind_gets. apply swap_loop_not_KeyError.
    intros entry Hentry. unfold dict_keys. now apply in_map.
Qed.

Lemma record_all_NoDup teacher records : forall tc,
  NoDup (dict_keys tc) -> NoDup (dict_keys (record_all teacher records tc)).
Proof.
  unfold record_all.
  induction records as [|r rest IH]; intros tc Hnd; simpl; [assumption|].
  apply IH. unfold conflicts_append. now apply dict_set_NoDup.
Qed.

Lemma report_from_NoDup sched tchs : forall tc,
  NoDup (dict_keys tc) -> NoDup (dict_keys (report_from sched tchs tc)).
Proof.
  unfold report_from.
  induction tchs as [|[teacher subs] rest IH]; intros tc Hnd; simpl; [assumption|].
  apply IH. now apply record_all_NoDup.
Qed.

(** X5: the only exception [resolve_teacher_conflicts] can raise is the
    [ValueError] of [list.remove]; a subject named by a conflict record or
    met by the swap loop always has its entry in the schedule, so no lookup
    raises [KeyError]. *)
Theorem resolve_teacher_conflicts_only_ValueError (st : Scheduler) (e : exn) :
  resolve_teacher_conflicts st = Raise e -> e = ValueError.
Proof.
  intros Hraise. destruct e; [exfalso | reflexivity]. revert Hraise.
  unfold resolve_teacher_conflicts. unfold bind at 1.
  rewrite find_teacher_conflicts_run, conflicts_of_report.
  set (P := fun st1 => dict_keys (schedule st1) = dict_keys (schedule st)).
  set (Q := fun record : Subject * TimeSlot =>
              In (fst record) (dict_keys (schedule st))).
  assert (forall record st1 st2,
             Q record -> P st1 -> resolve_conflict record st1 = Ok (tt, st2) -> P st2)
    as Hkeep.
  { intros record st1 st2 _ HP Hrun.
    apply resolve_conflict_same_shape in Hrun as (_ & _ & _ & Hshape).
    unfold P. now rewrite (same_shape_keys _ _ Hshape). }
  assert (forall record st1,
             Q record -> P st1 -> resolve_conflict record st1 <> Raise KeyError)
    as Hnever.
  { intros [subject time_slot] st1 HQ HP. apply resolve_conflict_not_KeyError.
    unfold P in HP. now rewrite HP. }
  apply (for_each_never P (fun entry => Forall Q (snd entry))); try reflexivity.
  - intros [teacher pairs] st1 st2 HQ HP. now apply (for_each_keeps P Q).
  - intros [teacher pairs] st1 HQ HP. now apply (for_each_never P Q).
  - apply Forall_forall. intros [teacher pairs] Hentry. simpl.
    apply Forall_forall. intros [subject time_slot] Hrec. unfold Q. simpl.
    apply In_dict_get in Hentry; [|apply report_from_NoDup; constructor].
    apply report_from_entry in Hentry. subst pairs.
    apply records_under_source in Hrec as (subs & _ & Hrec).
    apply teacher_records_sound in Hrec as [[Hvisit|Hocc] _]; [|discriminate].
    apply visits_In in Hvisit as [_ Hh].
    apply holds_get_list in Hh as (slots & Hget & _).
    apply dict_get_In in Hget. unfold dict_keys.
    change subject with (fst (subject, slots)). now apply in_map.
Qed.

Lemma resolve_teacher_conflicts_only_ValueError_witness :
  exists e, (initialize_schedule ;; resolve_teacher_conflicts) listed_twice = Raise e /\
            e = ValueError.
Proof.
  exists ValueError. split; [reflexivity|].
  apply (resolve_teacher_conflicts_only_ValueError
           (with_schedule listed_twice [("A", [mon9])])).
  reflexivity.
Defined.

(** ** Finalization: when it does nothing, when it schedules everyone *)

Lemma set_first_nil order : set_first order [] = None.
Proof. unfold set_first. now destruct (order [] mod length (@nil TimeSlot)). Qed.

Lemma set_first_some order s :
  s <> [] -> exists slot, set_first order s = Some slot.
Proof.
  intros Hne. unfold set_first.
  destruct (nth_error s (order s mod length s)) as [slot|] eqn:E; [eauto|].
  apply nth_error_None in E. exfalso.
  assert (length s <> 0) as Hlen by (destruct s; [congruence | discriminate]).
  pose proof (Nat.mod_upper_bound (order s) (length s) Hlen). lia.
Qed.

Lemma finalize_loop_empty_pool order subs sched :
  finalize_loop order subs [] sched = sched.
Proof.
  induction subs as [|s others IH]; simpl; [reflexivity|].
  now rewrite set_first_nil.
Qed.

Lemma finalize_idle (order : list TimeSlot -> nat) (st : Scheduler) :
  unassigned_subjects st = [] \/ free_pool st = [] ->
  finalize_schedule order st = Ok (tt, st).
Proof.
  intros Hcase. rewrite finalize_schedule_run.
  fold (unassigned_subjects st). fold (free_pool st).
  destruct Hcase as [-> | ->].
  - simpl. now rewrite with_schedule_same.
  - now rewrite finalize_loop_empty_pool, with_schedule_same.
Qed.

(** X6: with no unassigned subject, or with no free slot,
    [finalize_schedule] returns and leaves the object as it was. *)
Theorem finalize_schedule_nothing_to_do (order : list TimeSlot -> nat) (st : Scheduler) :
  unassigned_subjects st = [] \/ free_pool st = [] ->
  finalize_schedule order st = Ok (tt, st).
Proof. apply finalize_idle. Qed.

Lemma finalize_schedule_nothing_to_do_witness :
  finalize_schedule (fun _ => 0) no_room = Ok (tt, no_room) /\
  finalize_schedule (fun _ => 0)
    (with_schedule one_slot [("A", [mon9]); ("B", [])]) =
  Ok (tt, with_schedule one_slot [("A", [mon9]); ("B", [])]).
Proof.
  split; apply finalize_schedule_nothing_to_do; [left | right]; reflexivity.
Defined.

Lemma set_remove_absent {A} `{PyEq A} (x : A) s :
  ~ In x s -> set_remove x s = s.
Proof.
  unfold set_remove. induction s as [|y r IH]; intros Hni; cbn [filter]; [reflexivity|].
  destruct (py_eqb_spec y x) as [->|Hne]; cbn [negb].
  - exfalso. apply Hni. now left.
  - f_equal. apply IH. intros Hin. apply Hni. now right.
Qed.

Lemma set_remove_length {A} `{PyEq A} (x : A) s :
  NoDup s -> In x s -> S (length (set_remove x s)) = length s.
Proof.
  induction s as [|y r IH]; [intros _ []|].
  intros Hnd Hin. inversion Hnd as [|? ? Hni Hnd']; subst.
  unfold set_remove. cbn [filter].
  destruct (py_eqb_spec y x) as [->|Hne]; cbn [negb length].
  - f_equal. fold (set_remove x r). now rewrite set_remove_absent.
  - f_equal. apply IH; [assumption|]. destruct Hin; congruence.
Qed.

Lemma set_remove_NoDup (slot : TimeSlot) s : NoDup s -> NoDup (set_remove slot s).
Proof. apply NoDup_filter. Qed.

Lemma free_pool_NoDup st : NoDup (free_pool st).
Proof. apply NoDup_filter, set_of_list_NoDup. Qed.

Lemma unassigned_set_same subject slot sched :
  unassigned (dict_set subject [slot] sched) subject = false.
Proof. unfold unassigned. now rewrite dict_get_set_same. Qed.

Lemma unassigned_set_other subject subject' slots sched :
  subject' <> subject ->
  unassigned (dict_set subject slots sched) subject' = unassigned sched subject'.
Proof. intros Hne. unfold unassigned. now rewrite dict_get_set_other. Qed.

Lemma finalize_loop_assigns order subs : forall avail sched subject,
  NoDup avail ->
  length subs <= length avail ->
  In subject subs \/ unassigned sched subject = false ->
  unassigned (finalize_loop order subs avail sched) subject = false.
Proof.
  induction subs as [|s others IH]; intros avail sched subject Hnd Hlen Hcase; simpl.
  - destruct Hcase as [[]|H]. exact H.
  - simpl in Hlen.
    destruct (set_first_some order avail) as [slot Hfirst].
    { intros ->. simpl in Hlen. lia. }
    rewrite Hfirst. pose proof (set_first_In _ _ _ Hfirst) as Hin.
    apply IH.
    + now apply set_remove_NoDup.
    + pose proof (set_remove_length slot avail Hnd Hin). lia.
    + destruct (String.eqb_spec subject s) as [->|Hne].
      * right. apply unassigned_set_same.
      * destruct Hcase as [[E|Hothers]|Hdone]; [congruence | now left | right].
        now rewrite unassigned_set_other.
Qed.

(** X7: when there are at least as many free slots as unassigned entries of
    the subjects list, [finalize_schedule] leaves every listed subject with a
    slot, whatever the set order. *)
Theorem finalize_schedule_complete (order : list TimeSlot -> nat) (st : Scheduler) :
  length (unassigned_subjects st) <= length (free_pool st) ->
  exists st',
    finalize_schedule order st = Ok (tt, st') /\
    forall subject, In subject (subjects st) ->
                    unassigned (schedule st') subject = false.
Proof.
  intros Hlen. eexists. split; [apply finalize_schedule_run|].
  intros subject Hin. simpl.
  apply finalize_loop_assigns; [apply free_pool_NoDup | exact Hlen |].
  destruct (unassigned (schedule st) subject) eqn:E; [left | now right].
  apply filter_In. now split.
Qed.

Lemma finalize_schedule_complete_witness :
  exists st',
    finalize_schedule (fun _ => 0) late_subject = Ok (tt, st') /\
    unassigned (schedule late_subject) "B" = true /\
    unassigned (schedule st') "B" = false.
Proof.
  destruct (finalize_schedule_complete (fun _ => 0) late_subject) as (st' & Hrun & Hall).
  - simpl. lia.
  - exists st'. split; [exact Hrun|]. split; [reflexivity|].
    apply Hall. right. now left.
Defined.

(** ** Finalization twice *)

Lemma In_dict_set_keep {K V} `{PyEq K} (k k' : K) (v v' : V) d :
  In (k', v') d ->
  k' <> k \/ dict_get k d <> Some v' ->
  In (k', v') (dict_set k v d).
Proof.
  induction d as [|[k0 v0] r IH]; simpl; [tauto|].
  destruct (py_eqb_spec k0 k) as [->|Hk]; simpl.
  - intros [[= <- <-]|Hin] Hor; [|now right].
    destruct Hor as [Hne|Hne]; congruence.
  - intros [E|Hin] Hor; [now left | right; now apply IH].
Qed.

Lemma In_dict_set_new {K V} `{PyEq K} (k : K) (v : V) d :
  In (k, v) (dict_set k v d).
Proof. apply dict_get_In, dict_get_set_same. Qed.

Lemma set_first_none order s : set_first order s = None -> s = [].
Proof.
  intros Hnone. destruct s as [|x r]; [reflexivity|].
  destruct (set_first_some order (x :: r)) as [slot E]; [discriminate | congruence].
Qed.

Lemma finalize_pool_empty order subs : finalize_pool order subs [] = [].
Proof.
  induction subs as [|s others IH]; simpl; [reflexivity|].
  now rewrite set_first_nil.
Qed.

(** On distinct subjects, all still unassigned: slots in use stay in use, a
    slot taken from the pool is in use at the end, and the loop ends with an
    empty pool or with every subject served. *)
Lemma finalize_loop_settles order subs : forall avail sched,
  NoDup subs ->
  (forall subject, In subject subs -> unassigned sched subject = true) ->
  (forall slot, slot_occupied sched slot ->
                slot_occupied (finalize_loop order subs avail sched) slot) /\
  (forall slot, In slot avail -> ~ In slot (finalize_pool order subs avail) ->
                slot_occupied (finalize_loop order subs avail sched) slot) /\
  (finalize_pool order subs avail = [] \/
   forall subject, In subject subs ->
                   unassigned (finalize_loop order subs avail sched) subject = false).
Proof.
  induction subs as [|s others IH]; intros avail sched Hnd Hun; simpl.
  - repeat split; [auto | tauto | right; intros ? []].
  - inversion Hnd as [|? ? Hni Hnd']; subst.
    destruct (set_first order avail) as [time_slot|] eqn:Hfirst.
    + destruct (IH (set_remove time_slot avail) (dict_set s [time_slot] sched) Hnd')
        as (Hkeep & Hused & Hend).
      { intros subject Hin. rewrite unassigned_set_other; [|congruence].
        apply Hun. now right. }
      assert (forall slot, slot_occupied sched slot ->
                           slot_occupied (dict_set s [time_slot] sched) slot) as Hstep.
      { intros slot (k & l & Hkl & Hl). exists k, l. split; [|assumption].
        apply In_dict_set_keep; [assumption|].
        right. intros Hget.
        assert (unassigned sched s = true) as Hs by (apply Hun; now left).
        unfold unassigned in Hs. rewrite Hget in Hs. destruct l; [destruct Hl | discriminate]. }
      repeat split.
      * intros slot Hocc. apply Hkeep, Hstep, Hocc.
      * intros slot Hin Hout.
        destruct (py_eqb_spec (A := string * string) slot time_slot) as [->|Hne].
        -- apply Hkeep. exists s, [time_slot]. split; [apply In_dict_set_new | now left].
        -- apply Hused; [|assumption]. apply set_remove_In. now split.
      * destruct Hend as [Hempty|Hall]; [now left | right].
        intros subject [<-|Hin]; [|now apply Hall].
        unfold unassigned.
        destruct (finalize_loop_entry order others (set_remove time_slot avail)
                    (dict_set s [time_slot] sched) s) as [Hsame|(Hin & _)]; [|contradiction].
        now rewrite Hsame, dict_get_set_same.
    + apply set_first_none in Hfirst. subst avail.
      rewrite finalize_loop_empty_pool, finalize_pool_empty.
      repeat split; [auto | intros ? [] | now left].
Qed.

Lemma filter_nil {A} (p : A -> bool) l : (forall x, In x l -> p x = false) -> filter p l = [].
Proof.
  induction l as [|y r IH]; simpl; [reflexivity|].
  intros Hall. rewrite (Hall y) by now left. apply IH. intros x Hx. apply Hall. now right.
Qed.

(** X8: when the subjects list has no repeated subject, a second
    [finalize_schedule] (whatever its set order) changes nothing: the first
    one has either served every subject or used up the free slots. *)
Theorem finalize_schedule_twice (order order' : list TimeSlot -> nat) (st : Scheduler) :
  NoDup (subjects st) ->
  exists st',
    finalize_schedule order st = Ok (tt, st') /\
    finalize_schedule order' st' = Ok (tt, st').
Proof.
  intros Hnd. eexists. split; [apply finalize_schedule_run|].
  fold (unassigned_subjects st). fold (free_pool st).
  set (final := finalize_loop order (unassigned_subjects st) (free_pool st) (schedule st)).
  destruct (finalize_loop_settles order (unassigned_subjects st) (free_pool st) (schedule st))
    as (Hkeep & Hused & Hend).
  { now apply NoDup_filter. }
  { intros subject Hin. now apply filter_In in Hin as [_ Hun]. }
  fold final in Hkeep, Hused, Hend.
  apply finalize_idle.
  destruct Hend as [Hempty|Hall].
  - right. unfold free_pool at 1. simpl.
    destruct (set_difference (set_of_list (time_slots st)) (occupied final))
      as [|slot rest] eqn:E; [reflexivity|].
    exfalso.
    assert (In slot (set_difference (set_of_list (time_slots st)) (occupied final))) as Hin
        by (rewrite E; now left).
    apply set_difference_In in Hin as [Hts Hfree]. rewrite occupied_In in Hfree.
    assert (In slot (free_pool st)) as Hpool.
    { apply set_difference_In. split; [assumption|].
      rewrite occupied_In. intros Hocc. now apply Hfree, Hkeep. }
    apply Hfree, Hused; [assumption|]. now rewrite Hempty.
  - left. unfold unassigned_subjects at 1. simpl. apply filter_nil.
    intros subject Hin.
    destruct (unassigned (schedule st) subject) eqn:E.
    + apply Hall. apply filter_In. now split.
    + unfold unassigned in E |- *.
      destruct (finalize_loop_entry order (unassigned_subjects st) (free_pool st)
                  (schedule st) subject) as [Hsame|(_ & slot & _ & Hget)].
      * fold final in Hsame. now rewrite Hsame.
      * fold final in Hget. now rewrite Hget.
Qed.

(** With a subject twice in the list the second call can still act: the
    slot the first entry took is free again once the second entry has
    overwritten it. *)
Example finalize_schedule_twice_repeated_subject :
  finalize_schedule (fun _ => 0) twice_unscheduled =
    Ok (tt, with_schedule twice_unscheduled [("A", [mon10])]) /\
  finalize_schedule (fun _ => 0) (with_schedule twice_unscheduled [("A", [mon10])]) =
    Ok (tt, with_schedule twice_unscheduled [("A", [mon10]); ("B", [mon9])]).
Proof. split; reflexivity. Qed.

Lemma finalize_schedule_twice_witness :
  exists st',
    finalize_schedule (fun _ => 0) late_subject = Ok (tt, st') /\
    st' <> late_subject /\
    finalize_schedule (fun _ => 1) st' = Ok (tt, st').
Proof.
  destruct (finalize_schedule_twice (fun _ => 0) (fun _ => 1) late_subject)
    as (st' & Hrun & Hagain).
  - simpl. repeat constructor; simpl; intuition discriminate.
  - exists st'. split; [exact Hrun|]. split; [|exact Hagain].
    rewrite finalize_schedule_run in Hrun. injection Hrun as <-. discriminate.
Defined.

(** ** Slots come from the time slots *)

Lemma initialize_loop_source subs : forall avail sched subject slots,
  In (subject, slots) (initialize_loop subs avail sched) ->
  In (subject, slots) sched \/ slots = [] \/ exists slot, In slot avail /\ slots = [slot].
Proof.
  induction subs as [|s others IH]; intros avail sched subject slots; simpl; [tauto|].
  destruct avail as [|c rest]; intros Hin; apply IH in Hin.
  - destruct Hin as [Hin|[Hnil|(slot & [] & _)]]; [|tauto].
    apply In_dict_set in Hin as [[_ ->]|Hin]; tauto.
  - destruct Hin as [Hin|[Hnil|(slot & Hslot & ->)]]; [|tauto|].
    + apply In_dict_set in Hin as [[_ ->]|Hin]; [|tauto].
      right. right. exists c. split; [now left | reflexivity].
    + right. right. exists slot. split; [now right | reflexivity].
Qed.

Lemma finalize_loop_source order subs : forall avail sched subject slots,
  In (subject, slots) (finalize_loop order subs avail sched) ->
  In (subject, slots) sched \/ exists slot, In slot avail /\ slots = [slot].
Proof.
  induction subs as [|s others IH]; intros avail sched subject slots; simpl; [tauto|].
  destruct (set_first order avail) as [time_slot|] eqn:Hfirst; intros Hin; apply IH in Hin.
  - destruct Hin as [Hin|(slot & Hslot & ->)].
    + apply In_dict_set in Hin as [[_ ->]|Hin]; [|tauto].
      right. exists time_slot. split; [now apply (set_first_In order) | reflexivity].
    + right. exists slot. apply set_remove_In in Hslot. tauto.
  - assumption.
Qed.

Lemma move_within subject time_slot new_slot st st' :
  within st ->
  (forall sched, In (new_slot (with_schedule st sched)) (time_slots st) \/
                 new_slot (with_schedule st sched) = time_slot) ->
  (schedule_remove subject time_slot ;;
   slot <- gets new_slot ;;
   schedule_append subject slot) st = Ok (tt, st') ->
  within st'.
Proof.
  intros Hw Hnew. rewrite move_run.
  destruct (dict_get subject (schedule st)) as [slots|] eqn:Hget; [|discriminate].
  destruct (list_remove time_slot slots) as [slots'|] eqn:Hrem; [|discriminate].
  intros [= <-]. apply list_remove_perm in Hrem. apply dict_get_In in Hget.
  assert (forall x, In x (time_slot :: slots') -> In x (time_slots st)) as Hold.
  { intros x Hx. apply Hw. exists subject, slots. split; [assumption|].
    now apply (Permutation_in _ (Permutation_sym Hrem)). }
  intros slot (k & l & Hkl & Hl). simpl in *.
  apply In_dict_set in Hkl as [[_ ->]|Hkl].
  - apply in_app_iff in Hl as [Hl|[<-|[]]].
    + apply Hold. now right.
    + destruct (Hnew (dict_set subject slots' (schedule st))) as [Hin| ->];
        [assumption | apply Hold; now left].
  - apply Hw. now exists k, l.
Qed.

Lemma swap_target_source time_slot st :
  In (swap_target time_slot st) (time_slots st) \/ swap_target time_slot st = time_slot.
Proof.
  unfold swap_target.
  destruct (find _ (time_slots st)) as [slot|] eqn:E; [left | now right].
  now apply find_some in E as [Hin _].
Qed.

Lemma swap_loop_within subject time_slot items : forall st st',
  within st -> swap_loop subject time_slot items st = Ok (tt, st') ->
  within st' /\ time_slots st' = time_slots st.
Proof.
  induction items as [|[swap_subject swap_slots] rest IH]; intros st st' Hw; simpl.
  - intros [= <-]. now split.
  - destruct (negb (String.eqb swap_subject subject) && list_mem time_slot swap_slots);
      [|now apply IH].
    rewrite swap_run. intros Hrun. split.
    + revert Hrun. apply move_within; [assumption|].
      intros sched. apply (swap_target_source time_slot (with_schedule st sched)).
    + now apply move_same_shape in Hrun as (_ & _ & Hts & _).
Qed.

Lemma resolve_conflict_within record st st' :
  within st -> resolve_conflict record st = Ok (tt, st') ->
  within st' /\ time_slots st' = time_slots st.
Proof.
  destruct record as [subject time_slot]. intros Hw.
  unfold resolve_conflict. unfold bind at 1. rewrite find_alternative_slot_run.
  destruct (find _ (time_slots st)) as [slot|] eqn:E.
  - apply find_some in E as [Hin _]. intros Hrun. split.
    + revert Hrun. apply (move_within subject time_slot (fun _ => slot)); [assumption|].
      intros _. now left.
    + now apply (move_same_shape subject time_slot (fun _ => slot)) in Hrun
        as (_ & _ & Hts & _).
  - rewrite bind_gets. now apply swap_loop_within.
Qed.

(** X9: if every slot in the schedule is one of the object's time slots,
    this is still so after [initialize_schedule], after a
    [resolve_teacher_conflicts] that returns, and after [finalize_schedule]:
    no method ever puts a slot from elsewhere into the schedule. *)
Theorem methods_stay_within (order : list TimeSlot -> nat) (st : Scheduler) :
  within st ->
  (exists st1, initialize_schedule st = Ok (tt, st1) /\ within st1) /\
  (forall st2, resolve_teacher_conflicts st = Ok (tt, st2) -> within st2) /\
  (exists st3, finalize_schedule order st = Ok (tt, st3) /\ within st3).
Proof.
  intros Hw. split; [|split].
  - eexists. split; [apply initialize_schedule_run|].
    intros slot (k & l & Hkl & Hl). simpl in *.
    apply initialize_loop_source in Hkl as [Hkl|[->|(c & Hc & ->)]].
    + apply Hw. now exists k, l.
    + destruct Hl.
    + destruct Hl as [<-|[]]. assumption.
  - intros st2. unfold resolve_teacher_conflicts. unfold bind at 1.
    rewrite find_teacher_conflicts_run.
    set (P := fun st1 => within st1 /\ time_slots st1 = time_slots st).
    assert (forall record st1 st', P st1 -> resolve_conflict record st1 = Ok (tt, st') -> P st')
      as Hstep.
    { intros record st1 st' [Hw1 Hts1] Hrun.
      apply resolve_conflict_within in Hrun as [Hw' Hts']; [|assumption].
      split; [assumption | congruence]. }
    intros Hrun.
    apply (for_each_preserves P) with (st' := st2) in Hrun; [now destruct Hrun | | now split].
    intros [teacher pairs]. now apply (for_each_preserves P).
  - eexists. split; [apply finalize_schedule_run|].
    intros slot (k & l & Hkl & Hl). simpl in *.
    apply finalize_loop_source in Hkl as [Hkl|(c & Hc & ->)].
    + apply Hw. now exists k, l.
    + destruct Hl as [<-|[]].
      apply set_difference_In in Hc as [Hc _]. rewrite set_of_list_In in Hc. exact Hc.
Qed.

Lemma methods_stay_within_witness :
  exists st2,
    resolve_teacher_conflicts room_for_two = Ok (tt, st2) /\ within st2.
Proof.
  eexists. split; [reflexivity|].
  apply (methods_stay_within (fun _ => 0) room_for_two); [|reflexivity].
  intros slot (k & l & Hkl & Hl). simpl in *.
  destruct Hkl as [[= <- <-]|[[= <- <-]|[[= <- <-]|[]]]];
    destruct Hl as [<-|[]]; tauto.
Defined.

(** ** One subject per slot *)

Lemma holds_set subject slots sched subject' slot :
  holds (dict_set subject slots sched) subject' slot <->
  (subject' = subject /\ In slot slots) \/ (subject' <> subject /\ holds sched subject' slot).
Proof.
  unfold holds. destruct (String.eqb_spec subject' subject) as [->|Hne].
  - rewrite dict_get_list_set_same. tauto.
  - rewrite dict_get_list_set_other by assumption. tauto.
Qed.

Lemma initialize_loop_exclusive subs : forall avail sched,
  NoDup avail ->
  (forall slot subject, In slot avail -> ~ holds sched subject slot) ->
  exclusive sched ->
  exclusive (initialize_loop subs avail sched).
Proof.
  induction subs as [|s others IH]; intros avail sched Hnd Hfree Hex; simpl; [assumption|].
  destruct avail as [|c rest].
  - apply IH; [constructor | intros ? ? [] |].
    intros s1 s2 slot H1 H2. apply holds_set in H1, H2.
    destruct H1 as [[_ []]|[_ H1]], H2 as [[_ []]|[_ H2]]. now apply (Hex s1 s2 slot).
  - inversion Hnd as [|? ? Hc Hnd']; subst. apply IH; [assumption| |].
    + intros slot subject Hin Hh. apply holds_set in Hh as [[_ [<-|[]]]|[_ Hh]].
      * contradiction.
      * apply (Hfree slot subject); [now right | assumption].
    + intros s1 s2 slot H1 H2. apply holds_set in H1, H2.
      destruct H1 as [[-> [<-|[]]]|[Hne1 H1]], H2 as [[-> [E|[]]]|[Hne2 H2]].
      * reflexivity.
      * exfalso. apply (Hfree c s2); [now left | assumption].
      * subst slot. exfalso. apply (Hfree c s1); [now left | assumption].
      * now apply (Hex s1 s2 slot).
Qed.

(** X10: on a freshly constructed object whose time slots are pairwise
    different, [initialize_schedule] gives no slot to two different
    subjects. *)
Theorem initialize_schedule_exclusive
    (subs : list Subject) (tchs : dict Teacher (list Subject)) (slots : list TimeSlot) :
  NoDup slots ->
  exists sched,
    initialize_schedule (Scheduler_init subs tchs slots) =
      Ok (tt, mkScheduler subs tchs slots sched) /\
    exclusive sched.
Proof.
  intros Hnd. eexists. split; [apply initialize_schedule_run|].
  simpl. apply initialize_loop_exclusive; [assumption | |].
  - intros slot subject _ [].
  - intros s1 s2 slot [].
Qed.

Lemma initialize_schedule_exclusive_witness :
  exclusive (initialize_loop (subjects sample) (time_slots sample) []).
Proof.
  destruct (initialize_schedule_exclusive
              (subjects sample) (teachers sample) (time_slots sample))
    as (sched & Hrun & Hex).
  - repeat constructor; simpl; intuition discriminate.
  - rewrite initialize_schedule_run in Hrun. injection Hrun as <-. exact Hex.
Defined.

Lemma dict_keys_set {K V} `{PyEq K} (k k' : K) (v : V) d :
  In k' (dict_keys (dict_set k v d)) <-> k' = k \/ In k' (dict_keys d).
Proof.
  destruct (list_mem k (dict_keys d)) eqn:E.
  - apply list_mem_In in E. rewrite dict_keys_set_In by assumption.
    split; [tauto | intros [->|?]; assumption].
  - apply list_mem_false in E. rewrite dict_keys_set_new by assumption.
    rewrite in_app_iff. simpl. intuition congruence.
Qed.

Lemma initialize_loop_keys subs : forall avail sched subject,
  In subject (dict_keys (initialize_loop subs avail sched)) <->
  In subject (dict_keys sched) \/ In subject subs.
Proof.
  induction subs as [|s others IH]; intros avail sched subject; simpl; [tauto|].
  destruct avail as [|c rest]; rewrite IH, dict_keys_set;
    split; intros H; repeat destruct H as [H|H]; auto.
Qed.

(** X11: after [initialize_schedule] a subject has an entry in the
    schedule exactly when it had one before or is in the subjects list: every
    listed subject gets an entry, with a slot or empty, and no other entry is
    created or dropped. *)
Theorem initialize_schedule_entries (st : Scheduler) :
  exists st',
    initialize_schedule st = Ok (tt, st') /\
    forall subject,
      dict_get subject (schedule st') <> None <->
      dict_get subject (schedule st) <> None \/ In subject (subjects st).
Proof.
  eexists. split; [apply initialize_schedule_run|].
  intros subject. simpl.
  assert (forall d : dict Subject (list TimeSlot),
             dict_get subject d <> None <-> In subject (dict_keys d)) as Hkey.
  { intros d. rewrite dict_get_None.
    destruct (in_dec string_dec subject (dict_keys d)); tauto. }
  rewrite !Hkey. apply initialize_loop_keys.
Qed.

(** ** The pipeline on well-formed input *)

Lemma bind_run {A B} (c : M A) (k : A -> M B) st a st' :
  c st = Ok (a, st') -> (x <- c ;; k x) st = k a st'.
Proof. intros Hrun. unfold bind. now rewrite Hrun. Qed.

Lemma dict_get_list_length sched subject :
  at_most_one_slot sched -> length (dict_get_list subject sched) <= 1.
Proof.
  intros Hone. unfold dict_get_list.
  destruct (dict_get subject sched) as [slots|] eqn:E; [|simpl; lia].
  now apply (at_most_one_get subject slots sched).
Qed.

(** With one subject per slot and one slot per subject, a list of different
    subjects leads to different slots. *)
Lemma exclusive_conflict_free sched subs :
  exclusive sched -> at_most_one_slot sched -> NoDup subs ->
  NoDup (teacher_slots sched subs).
Proof.
  intros Hex Hone. induction 1 as [|s others Hni Hnd IH]; [constructor|].
  rewrite teacher_slots_cons. apply NoDup_app; [|assumption|].
  - pose proof (dict_get_list_length sched s Hone) as Hlen.
    destruct (dict_get_list s sched) as [|x [|y r]]; simpl in Hlen; try lia;
      repeat constructor. intros [].
  - intros slot Hs Hin. unfold teacher_slots in Hin.
    apply in_flat_map in Hin as (s' & Hs' & Hh).
    assert (s = s') by now apply (Hex s s' slot). now subst.
Qed.

Lemma finalize_loop_exclusive order subs avail sched :
  (forall slot subject, In slot avail -> ~ holds sched subject slot) ->
  exclusive sched ->
  exclusive (finalize_loop order subs avail sched).
Proof.
  intros Hfree Hex s1 s2 slot H1 H2.
  assert (forall subject,
             holds (finalize_loop order subs avail sched) subject slot ->
             In slot avail \/ holds sched subject slot) as Hfrom.
  { intros subject. unfold holds at 1, dict_get_list.
    destruct (finalize_loop_entry order subs avail sched subject)
      as [Hsame|(_ & slot' & Hslot' & Hget)].
    - rewrite Hsame. now right.
    - rewrite Hget. intros [<-|[]]. now left. }
  destruct (Hfrom s1 H1) as [Hin|Hold1].
  - now apply (finalize_loop_once order subs avail sched Hfree slot).
  - destruct (Hfrom s2 H2) as [Hin|Hold2].
    + now apply (finalize_loop_once order subs avail sched Hfree slot).
    + now apply (Hex s1 s2 slot).
Qed.

(** X12: on a freshly constructed object whose time slots are pairwise
    different and where no teacher lists a subject twice, the pipeline
    returns, whatever the set order; the conflict resolution changes nothing;
    and in the result no slot is held by two subjects, no subject has two
    slots, and [find_teacher_conflicts] reports nothing. *)
Theorem pipeline_well_formed
    (subs : list Subject) (tchs : dict Teacher (list Subject)) (slots : list TimeSlot)
    (order : list TimeSlot -> nat) :
  NoDup slots ->
  (forall teacher listed, In (teacher, listed) tchs -> NoDup listed) ->
  exists st1 st',
    initialize_schedule (Scheduler_init subs tchs slots) = Ok (tt, st1) /\
    resolve_teacher_conflicts st1 = Ok (tt, st1) /\
    pipeline order (Scheduler_init subs tchs slots) = Ok (tt, st') /\
    exclusive (schedule st') /\
    at_most_one_slot (schedule st') /\
    find_teacher_conflicts st' = Ok ([], st').
Proof.
  intros Hslots Hlisted.
  set (st0 := Scheduler_init subs tchs slots).
  set (sched1 := initialize_loop subs slots []).
  set (st1 := with_schedule st0 sched1).
  assert (initialize_schedule st0 = Ok (tt, st1)) as Hinit
      by apply initialize_schedule_run.
  assert (exclusive sched1) as Hex1.
  { apply initialize_loop_exclusive; [assumption | intros ? ? _ [] | intros ? ? ? []]. }
  assert (at_most_one_slot sched1) as Hone1.
  { apply initialize_loop_at_most_one. constructor. }
  assert (resolve_teacher_conflicts st1 = Ok (tt, st1)) as Hres.
  { apply resolve_idle. intros teacher listed Hin. simpl in *.
    apply exclusive_conflict_free; try assumption. now apply (Hlisted teacher). }
  set (sched' := finalize_loop order (unassigned_subjects st1) (free_pool st1) sched1).
  exists st1, (with_schedule st1 sched'). repeat split; try assumption.
  - unfold pipeline. rewrite (bind_run _ _ _ _ _ Hinit), (bind_run _ _ _ _ _ Hres).
    apply finalize_schedule_run.
  - apply finalize_loop_exclusive; [|assumption].
    intros slot subject Hin Hh. apply set_difference_In in Hin as [_ Hfree].
    apply Hfree, occupied_In. now apply (holds_occupied _ subject).
  - now apply finalize_loop_at_most_one.
  - apply conflict_free_iff. intros teacher listed Hin. simpl in *.
    apply exclusive_conflict_free.
    + apply finalize_loop_exclusive; [|assumption].
      intros slot subject Hpool Hh. apply set_difference_In in Hpool as [_ Hfree].
      apply Hfree, occupied_In. now apply (holds_occupied _ subject).
    + now apply finalize_loop_at_most_one.
    + now apply (Hlisted teacher).
Qed.

Lemma pipeline_well_formed_witness :
  exists st',
    pipeline (fun _ => 0) sample = Ok (tt, st') /\
    find_teacher_conflicts st' = Ok ([], st').
Proof.
  destruct (pipeline_well_formed (subjects sample) (teachers sample) (time_slots sample)
              (fun _ => 0)) as (st1 & st' & _ & _ & Hrun & _ & _ & Hfree).
  - repeat constructor; simpl; intuition discriminate.
  - intros teacher listed [[= <- <-]|[[= <- <-]|[[= <- <-]|[]]]];
      repeat constructor; simpl; intuition discriminate.
  - exists st'. now split.
Defined.

(** ** The result when there are enough slots *)

Lemma dict_set_new {K V} `{PyEq K} (k : K) (v : V) d :
  ~ In k (dict_keys d) -> dict_set k v d = d ++ [(k, v)].
Proof.
  induction d as [|[k0 v0] r IH]; simpl; [reflexivity|].
  intros Hni. destruct (py_eqb_spec k0 k) as [->|Hne]; [tauto|].
  now rewrite IH by tauto.
Qed.

Lemma initialize_loop_fresh subs : forall avail sched,
  NoDup subs ->
  (forall subject, In subject subs -> ~ In subject (dict_keys sched)) ->
  initialize_loop subs avail sched = sched ++ initial_entries subs avail.
Proof.
  induction subs as [|s others IH]; intros avail sched Hnd Hnew; simpl.
  - now rewrite app_nil_r.
  - inversion Hnd as [|? ? Hni Hnd']; subst.
    assert (forall slots subject,
               In subject others -> ~ In subject (dict_keys (sched ++ [(s, slots)])))
      as Hnew'.
    { intros slots subject Hin. unfold dict_keys. rewrite map_app, in_app_iff. simpl.
      intros [Hk|[<-|[]]]; [|contradiction].
      apply (Hnew subject); [now right | assumption]. }
    destruct avail as [|c rest]; rewrite dict_set_new by (apply Hnew; now left);
      rewrite IH by auto; now rewrite <- app_assoc.
Qed.

Lemma initial_entries_enough subs : forall avail,
  length subs <= length avail ->
  initial_entries subs avail = map (fun p => (fst p, [snd p])) (combine subs avail).
Proof.
  induction subs as [|s others IH]; intros avail Hlen; simpl; [reflexivity|].
  destruct avail as [|c rest]; simpl in *; [lia|].
  now rewrite IH by lia.
Qed.

Lemma unassigned_initial_entries subs : forall avail subject,
  NoDup subs -> length subs <= length avail -> In subject subs ->
  unassigned (initial_entries subs avail) subject = false.
Proof.
  induction subs as [|s others IH]; intros avail subject Hnd Hlen Hin; [destruct Hin|].
  destruct avail as [|c rest]; simpl in Hlen; [lia|].
  inversion Hnd as [|? ? Hni Hnd']; subst.
  unfold unassigned. simpl.
  destruct (String.eqb_spec s subject) as [->|Hne]; [reflexivity|].
  apply IH; [assumption | lia | destruct Hin; congruence].
Qed.

(** On a freshly constructed object with pairwise different subjects,
    pairwise different time slots, no teacher listing a subject twice, and
    at least as many time slots as subjects, the pipeline returns the
    schedule that pairs the [i]-th subject with the [i]-th time slot, in the
    order of the subjects list. *)
Theorem pipeline_enough_slots
    (subs : list Subject) (tchs : dict Teacher (list Subject)) (slots : list TimeSlot)
    (order : list TimeSlot -> nat) :
  NoDup subs -> NoDup slots ->
  (forall teacher listed, In (teacher, listed) tchs -> NoDup listed) ->
  length subs <= length slots ->
  pipeline order (Scheduler_init subs tchs slots) =
  Ok (tt, mkScheduler subs tchs slots
            (map (fun p => (fst p, [snd p])) (combine subs slots))).
Proof.
  intros Hsubs Hslots Hlisted Hlen.
  set (st0 := Scheduler_init subs tchs slots).
  assert (initialize_loop subs slots [] = initial_entries subs slots) as Hentries.
  { apply (initialize_loop_fresh subs slots []); [assumption | intros ? _ []]. }
  set (st1 := with_schedule st0 (initial_entries subs slots)).
  assert (initialize_schedule st0 = Ok (tt, st1)) as Hinit.
  { rewrite initialize_schedule_run. unfold st1. simpl. now rewrite Hentries. }
  assert (resolve_teacher_conflicts st1 = Ok (tt, st1)) as Hres.
  { apply resolve_idle. intros teacher listed Hin. simpl in *.
    apply exclusive_conflict_free; [| |now apply (Hlisted teacher)]; rewrite <- Hentries.
    - apply initialize_loop_exclusive; [assumption | intros ? ? _ [] | intros ? ? ? []].
    - apply initialize_loop_at_most_one. constructor. }
  assert (finalize_schedule order st1 = Ok (tt, st1)) as Hfin.
  { apply finalize_idle. left. unfold unassigned_subjects. simpl.
    apply filter_nil. intros subject Hin. now apply unassigned_initial_entries. }
  unfold pipeline.
  rewrite (bind_run _ _ _ _ _ Hinit), (bind_run _ _ _ _ _ Hres), Hfin.
  unfold st1, with_schedule. simpl. now rewrite initial_entries_enough.
Qed.

Lemma pipeline_enough_slots_witness :
  pipeline (fun _ => 0) (Scheduler_init ["A"; "B"] [("T", ["A"; "B"])] [mon9; mon10; mon11]) =
  Ok (tt, mkScheduler ["A"; "B"] [("T", ["A"; "B"])] [mon9; mon10; mon11]
            [("A", [mon9]); ("B", [mon10])]).
Proof.
  apply (pipeline_enough_slots ["A"; "B"] [("T", ["A"; "B"])] [mon9; mon10; mon11]).
  - repeat constructor; simpl; intuition discriminate.
  - repeat constructor; simpl; intuition discriminate.
  - intros teacher listed [[= <- <-]|[]].
    repeat constructor; simpl; intuition discriminate.
  - simpl. lia.
Defined.

(** ** A single conflict and one free slot *)






(** ** The result on well-formed input, whatever the number of slots *)

Lemma initial_entries_uses_all subs : forall avail slot,
  length avail <= length subs ->
  In slot avail ->
  slot_occupied (initial_entries subs avail) slot.
Proof.
  induction subs as [|s others IH]; intros avail slot Hlen Hin.
  - destruct avail; [destruct Hin | simpl in Hlen; lia].
  - destruct avail as [|c rest]; [destruct Hin|]. simpl in *.
    destruct Hin as [<-|Hin].
    + exists s, [c]. split; now left.
    + destruct (IH rest slot) as (k & l & Hkl & Hl); [lia | assumption|].
      exists k, l. split; [now right | assumption].
Qed.

(** X13: on a freshly constructed object with pairwise different subjects,
    pairwise different time slots and no teacher listing a subject twice, the
    result of the pipeline is the schedule [initialize_schedule] makes: the
    subjects in order, each with the time slot of its position while slots
    last and with no slot after that.  [initialize_schedule] returns that
    schedule, and on it both [resolve_teacher_conflicts] and
    [finalize_schedule] return the object unchanged. *)
Theorem pipeline_result
    (subs : list Subject) (tchs : dict Teacher (list Subject)) (slots : list TimeSlot)
    (order : list TimeSlot -> nat) :
  NoDup subs -> NoDup slots ->
  (forall teacher listed, In (teacher, listed) tchs -> NoDup listed) ->
  pipeline order (Scheduler_init subs tchs slots) =
    Ok (tt, mkScheduler subs tchs slots (initial_entries subs slots)) /\
  initialize_schedule (Scheduler_init subs tchs slots) =
    Ok (tt, mkScheduler subs tchs slots (initial_entries subs slots)) /\
  resolve_teacher_conflicts (mkScheduler subs tchs slots (initial_entries subs slots)) =
    Ok (tt, mkScheduler subs tchs slots (initial_entries subs slots)) /\
  finalize_schedule order (mkScheduler subs tchs slots (initial_entries subs slots)) =
    Ok (tt, mkScheduler subs tchs slots (initial_entries subs slots)).
Proof.
  intros Hsubs Hslots Hlisted.
  set (st0 := Scheduler_init subs tchs slots).
  assert (initialize_loop subs slots [] = initial_entries subs slots) as Hentries.
  { apply (initialize_loop_fresh subs slots []); [assumption | intros ? _ []]. }
  set (st1 := mkScheduler subs tchs slots (initial_entries subs slots)).
  assert (initialize_schedule st0 = Ok (tt, st1)) as Hinit.
  { rewrite initialize_schedule_run. unfold st1, with_schedule. simpl.
    now rewrite Hentries. }
  assert (resolve_teacher_conflicts st1 = Ok (tt, st1)) as Hres.
  { apply resolve_idle. intros teacher listed Hin. simpl in *.
    apply exclusive_conflict_free; [| |now apply (Hlisted teacher)]; rewrite <- Hentries.
    - apply initialize_loop_exclusive; [assumption | intros ? ? _ [] | intros ? ? ? []].
    - apply initialize_loop_at_most_one. constructor. }
  assert (finalize_schedule order st1 = Ok (tt, st1)) as Hfin.
  { apply finalize_idle.
    destruct (Nat.le_gt_cases (length subs) (length slots)) as [Hle|Hgt].
    - left. unfold unassigned_subjects. simpl.
      apply filter_nil. intros subject Hin. now apply unassigned_initial_entries.
    - right. unfold free_pool, set_difference. simpl.
      apply filter_nil. intros slot Hin. rewrite set_of_list_In in Hin.
      apply negb_false_iff, list_mem_In, occupied_In.
      apply initial_entries_uses_all; [lia | assumption]. }
  repeat split; try assumption.
  unfold pipeline.
  now rewrite (bind_run _ _ _ _ _ Hinit), (bind_run _ _ _ _ _ Hres), Hfin.
Qed.

Lemma pipeline_result_witness :
  pipeline (fun _ => 0) sample =
  Ok (tt, mkScheduler (subjects sample) (teachers sample) (time_slots sample)
            [("Math", [mon9]); ("Physics", [mon10]); ("Chemistry", [mon11]);
             ("Biology", [])]).
Proof.
  destruct (pipeline_result (subjects sample) (teachers sample) (time_slots sample)
              (fun _ => 0)) as (Hrun & _).
  - repeat constructor; simpl; intuition discriminate.
  - repeat constructor; simpl; intuition discriminate.
  - intros teacher listed [[= <- <-]|[[= <- <-]|[[= <- <-]|[]]]];
      repeat constructor; simpl; intuition discriminate.
  - exact Hrun.
Defined.
